(** * tf-imitation: the pose-to-actuator pipeline of [demos/camera.js] and
    [demos/demo_util.js]

    JavaScript numbers are IEEE-754 binary64 values; they are embedded as Rocq's
    primitive [float], whose operations are the same binary64 operations, so that
    every definition below can be evaluated on concrete inputs. *)

From Stdlib Require Import Floats ZArith List String Ascii Bool Lia Permutation.
Import ListNotations.

Set Warnings "-inexact-float".

Local Open Scope float_scope.

(** ** JavaScript numbers *)

Module JS.

(** [Math.PI]. *)
Definition Math_PI : float := 0x1.921fb54442d18p+1.

(** [Math.abs] and [Math.sqrt] are exactly the binary64 operations. *)
Definition Math_abs (a : float) : float := abs a.
Definition Math_sqrt (a : float) : float := sqrt a.

(** The relational operators; a comparison with [NaN] is [false]. *)
Definition lt (a b : float) : bool := a <? b.
Definition gt (a b : float) : bool := b <? a.
Definition le (a b : float) : bool := a <=? b.
Definition ge (a b : float) : bool := b <=? a.

(** A read that yields [undefined] becomes [NaN] in arithmetic (ToNumber). *)
Definition toNumber (v : option float) : float :=
  match v with
  | Some a => a
  | None => nan
  end.

(** [a[i]] for an array of numbers: [undefined] outside [0 .. length-1]. *)
Definition item (a : list float) (i : Z) : option float :=
  if (i <? 0)%Z then None else nth_error a (Z.to_nat i).

(** *** Number::toString, radix 10

    For a finite positive [x = m * 2^e] ECMAScript picks integers [n], [k],
    [s] with [10^(k-1) <= s < 10^k], [s * 10^(n-k)] rounding to [x], and [k]
    as small as possible; among several [s] the one closest to [x]. *)

Definition pow10 (p : Z) : Z := (10 ^ p)%Z.
Definition pow2 (p : Z) : Z := (2 ^ p)%Z.

(** Compares [a * 10^p] with [b * 2^q] for integers [a], [b]. *)
Definition cmp_scaled (a p b q : Z) : comparison :=
  (a * pow10 (Z.max p 0) * pow2 (Z.max (- q) 0)
     ?= b * pow10 (Z.max (- p) 0) * pow2 (Z.max q 0))%Z.

(** Does the decimal [s * 10^p] round (to nearest, ties to even) to the
    binary64 value [m * 2^e]?  The neighbours of [m * 2^e] are one unit of
    [2^e] away, except below a power of two, where the lower one is half a
    unit away. *)
Definition rounds_to (s p m e : Z) : bool :=
  let even := Z.even m in
  let lo := if ((m =? pow2 52) && (-1074 <? e))%bool%Z
            then (4 * m - 1)%Z else (4 * m - 2)%Z in
  let hi := (4 * m + 2)%Z in
  let above := match cmp_scaled s p lo (e - 2) with
               | Gt => true | Eq => even | Lt => false end in
  let below := match cmp_scaled s p hi (e - 2) with
               | Lt => true | Eq => even | Gt => false end in
  above && below.

(** The least [n] from [n0] on with [m * 2^e < 10^n]. *)
Fixpoint magnitude (fuel : nat) (m e n : Z) : Z :=
  match fuel with
  | O => n
  | S fuel' =>
      match cmp_scaled 1 n m e with
      | Gt => n
      | _ => magnitude fuel' m e (n + 1)%Z
      end
  end.

(** The triple [(n, k, s)] for [m * 2^e], trying [k] from [k0] upwards. *)
Fixpoint shortest (fuel : nat) (m e n k : Z) : Z * Z * Z :=
  let p := (n - k)%Z in
  let num := (m * pow2 (Z.max e 0) * pow10 (Z.max (- p) 0))%Z in
  let den := (pow2 (Z.max (- e) 0) * pow10 (Z.max p 0))%Z in
  let t := (num / den)%Z in
  let up := if (t + 1 <? pow10 k)%Z
            then (n, (t + 1)%Z) else ((n + 1)%Z, pow10 (k - 1)) in
  let okl := rounds_to t p m e in
  let oku := rounds_to (snd up) (fst up - k) m e in
  let nearer_low := match (2 * num ?= (2 * t + 1) * den)%Z with
                    | Lt => true | Eq => Z.even t | Gt => false end in
  match fuel with
  | O => (n, k, t)
  | S fuel' =>
      if okl && (negb oku || nearer_low) then (n, k, t)
      else if oku then (fst up, k, snd up)
      else shortest fuel' m e n (k + 1)%Z
  end.

Definition digit (d : Z) : ascii := ascii_of_nat (48 + Z.to_nat d).

(** The [k] decimal digits of [s], most significant first. *)
Fixpoint digits (k : nat) (s : Z) (acc : string) : string :=
  match k with
  | O => acc
  | S k' => digits k' (s / 10)%Z (String (digit (s mod 10)%Z) acc)
  end.

(** The decimal digits of a non-negative integer, at least one. *)
Definition decimal (z : Z) : string :=
  digits (Nat.max 1 (Z.to_nat (Z.log2 z / 3 + 1))) z EmptyString.

Fixpoint strip (s : string) : string :=
  match s with
  | String c ((String _ _) as s') => if Ascii.eqb c "0" then strip s' else s
  | _ => s
  end.

Fixpoint zeros (n : nat) : string :=
  match n with
  | O => EmptyString
  | S n' => String "0" (zeros n')
  end.

Definition format (n k s : Z) : string :=
  let ds := digits (Z.to_nat k) s EmptyString in
  if ((k <=? n) && (n <=? 21))%bool%Z then
    ds ++ zeros (Z.to_nat (n - k))
  else if ((0 <? n) && (n <=? 21))%bool%Z then
    substring 0 (Z.to_nat n) ds ++ "." ++
    substring (Z.to_nat n) (Z.to_nat (k - n)) ds
  else if ((-6 <? n) && (n <=? 0))%bool%Z then
    "0." ++ zeros (Z.to_nat (- n)) ++ ds
  else
    let ex := ((if (n - 1 <? 0)%Z then "-" else "+")
               ++ strip (decimal (Z.abs (n - 1))))%string in
    if (k =? 1)%Z then ds ++ "e" ++ ex
    else substring 0 1 ds ++ "." ++
         substring 1 (Z.to_nat (k - 1)) ds ++ "e" ++ ex.

Definition Number_toString (x : float) : string :=
  match Prim2SF x with
  | S754_nan => "NaN"
  | S754_zero _ => "0"
  | S754_infinity sg => if sg then "-Infinity" else "Infinity"
  | S754_finite sg m e =>
      let m := Z.pos m in
      let n0 := ((Z.log2 m + e) * 30103 / 100000 - 1)%Z in
      let n := magnitude 6 m e n0 in
      let '(n', k, s) := shortest 17 m e n 1 in
      ((if sg then "-" else EmptyString) ++ format n' k s)%string
  end.

(** *** Array.prototype.sort without a comparator

    Elements are ordered by their string images, compared code unit by code
    unit; the sort is stable.  [x] precedes [y] when [toString x < toString
    y]. *)
Definition sortCompare_lt (a b : float) : bool :=
  String.ltb (Number_toString a) (Number_toString b).

Fixpoint insert (a : float) (l : list float) : list float :=
  match l with
  | [] => [a]
  | b :: l' => if sortCompare_lt b a then b :: insert a l' else a :: l
  end.

Definition sort (l : list float) : list float := fold_right insert [] l.

End JS.

(** ** Data model (camera.js, demo_util.js) *)

(** [{x: ..., y: ...}]. *)
Record Vector2D : Type := mkVector { x : float; y : float }.

(** A PoseNet keypoint: [{score, position}].  The [part] name is never read. *)
Record Keypoint : Type := mkKeypoint { score : float; position : Vector2D }.

(** A PoseNet pose: [{score, keypoints}]. *)
Record Pose : Type := mkPose { pose_score : float; keypoints : list Keypoint }.

(** [{left: ..., right: ...}], returned by the gates and by the angle
    functions. *)
Record Sides (A : Type) : Type := mkSides { left : A; right : A }.
Arguments mkSides {A} _ _.
Arguments left {A} _.
Arguments right {A} _.

(** The box [posenet.getBoundingBox] returns. *)
Record BoundingBox : Type :=
  mkBox { maxX : float; maxY : float; minX : float; minY : float }.

(** *** Reads that can throw

    [keypoints[i]] is [undefined] past the end of the array, and reading
    [.score] or [.position] of [undefined] throws a TypeError.  A computation
    that throws is [None]. *)

Definition bind {A B : Type} (m : option A) (k : A -> option B) : option B :=
  match m with
  | Some a => k a
  | None => None
  end.

Notation "v <- m ;; k" := (bind m (fun v => k))
  (at level 61, m at next level, right associativity).

(** [keypoints[i].score > minConfidence]. *)
Definition scoreAbove (keypoints : list Keypoint) (i : nat)
    (minConfidence : float) : option bool :=
  k <- nth_error keypoints i ;; Some (JS.gt (score k) minConfidence).

(** [keypoints[i].position]. *)
Definition positionOf (keypoints : list Keypoint) (i : nat) : option Vector2D :=
  k <- nth_error keypoints i ;; Some (position k).

(** [a && b]: [b] is evaluated only when [a] is true. *)
Definition andThen (a b : option bool) : option bool :=
  match a with
  | Some true => b
  | other => other
  end.

Infix "&&&" := andThen (at level 40, left associativity).

(** ** Keypoint availability gates (demo_util.js) *)

(** 5: leftShoulder, 6: rightShoulder, 7: leftElbow, 8: rightElbow,
    9: leftWrist, 10: rightWrist. *)
Definition existsArms (keypoints : list Keypoint) (minConfidence : float)
    : option (Sides bool) :=
  let above i := scoreAbove keypoints i minConfidence in
  c1 <- above 5%nat &&& above 6%nat &&& above 7%nat &&& above 8%nat ;;
  if c1 then Some (mkSides true true) else
  c2 <- above 5%nat &&& above 6%nat &&& above 7%nat ;;
  if c2 then Some (mkSides true false) else
  c3 <- above 5%nat &&& above 6%nat &&& above 8%nat ;;
  if c3 then Some (mkSides false true) else
  Some (mkSides false false).

Definition existWritst (keypoints : list Keypoint) (minConfidence : float)
    : option (Sides bool) :=
  let above i := scoreAbove keypoints i minConfidence in
  c1 <- above 9%nat &&& above 10%nat ;;
  if c1 then Some (mkSides true true) else
  c2 <- above 9%nat ;;
  if c2 then Some (mkSides true false) else
  c3 <- above 10%nat ;;
  if c3 then Some (mkSides false true) else
  Some (mkSides false false).

(** 0: nose, 1: leftEye, 2: rightEye, 3: leftEar, 4: rightEar. *)
Definition existsEyeAndNose (keypoints : list Keypoint) (minConfidence : float)
    : option bool :=
  let above i := scoreAbove keypoints i minConfidence in
  c1 <- above 0%nat &&& above 1%nat &&& above 2%nat ;;
  if c1 then Some true else Some false.

Definition existsNoseAndEyeAndEar (keypoints : list Keypoint)
    (minConfidence : float) : option (Sides bool) :=
  let above i := scoreAbove keypoints i minConfidence in
  c0 <- above 0%nat &&& above 1%nat &&& above 2%nat ;;
  if c0 then
    c1 <- above 3%nat &&& above 4%nat ;;
    if c1 then Some (mkSides true true) else
    c2 <- above 3%nat ;;
    if c2 then Some (mkSides true false) else
    c3 <- above 4%nat ;;
    if c3 then Some (mkSides false true) else
    Some (mkSides false false)
  else Some (mkSides false false).

(** ** Geometry (demo_util.js) *)

Definition norm (vector : Vector2D) : float :=
  JS.Math_sqrt (x vector * x vector + y vector * y vector).

(** The eye-to-nose vector takes its [x] from the nose and its [y] from the
    eye vector. *)
Definition getFaceYaw (keypoints : list Keypoint) : option float :=
  nose <- positionOf keypoints 0 ;;
  leftEye <- positionOf keypoints 1 ;;
  rightEye <- positionOf keypoints 2 ;;
  let eyeVector := mkVector (x rightEye - x leftEye) (y rightEye - y leftEye) in
  let eyeToNoseVector := mkVector (x nose - x leftEye) (y eyeVector) in
  let ratio := norm eyeToNoseVector / norm eyeVector in
  Some (180 - ratio * 180).

Definition getShoulderLine (keypoints : list Keypoint) : option Vector2D :=
  leftShoulder <- positionOf keypoints 5 ;;
  rightShoulder <- positionOf keypoints 6 ;;
  Some (mkVector (x leftShoulder - x rightShoulder)
                 (y leftShoulder - y rightShoulder)).

Definition getUpperArmLine (keypoints : list Keypoint)
    : option (Sides Vector2D) :=
  leftShoulder <- positionOf keypoints 5 ;;
  rightShoulder <- positionOf keypoints 6 ;;
  leftElbow <- positionOf keypoints 7 ;;
  rightElbow <- positionOf keypoints 8 ;;
  Some (mkSides
          (mkVector (x leftElbow - x leftShoulder) (y leftElbow - y leftShoulder))
          (mkVector (x rightElbow - x rightShoulder)
                    (y rightElbow - y rightShoulder))).

Definition getWristLine (keypoints : list Keypoint) : option (Sides Vector2D) :=
  leftShoulder <- positionOf keypoints 5 ;;
  rightShoulder <- positionOf keypoints 6 ;;
  leftWrist <- positionOf keypoints 9 ;;
  rightWrist <- positionOf keypoints 10 ;;
  Some (mkSides
          (mkVector (x leftWrist - x leftShoulder) (y leftWrist - y leftShoulder))
          (mkVector (x rightWrist - x rightShoulder)
                    (y rightWrist - y rightShoulder))).

(** *** The host: what the demo calls but does not define

    [Math.cos], [Math.sin] and [Math.acos] are implementation-approximated in
    ECMAScript, and [getBoundingBox] belongs to the posenet package. The demo's
    functions take them as given. *)
Class Host : Type := {
  Math_cos : float -> float;
  Math_sin : float -> float;
  Math_acos : float -> float;
  getBoundingBox : list Keypoint -> BoundingBox
}.

Section Demo.

Context {host : Host}.

Definition rotateVector (vector : Vector2D) (degree : float) : Vector2D :=
  let rad := degree * (JS.Math_PI / 180) in
  let cos := Math_cos rad in
  let sin := Math_sin rad in
  mkVector (x vector * cos - y vector * sin) (x vector * sin + y vector * cos).

Definition calculateAngle (vectorA vectorB : Vector2D) : float :=
  let dot := x vectorA * x vectorB + y vectorA * y vectorB in
  let cos := dot / (norm vectorA * norm vectorB) in
  let rad := Math_acos cos in
  rad * 180 / JS.Math_PI.

Definition getArmsAngle (keypoints : list Keypoint) : option (Sides float) :=
  shoulderLine <- getShoulderLine keypoints ;;
  upperArmLine <- getUpperArmLine keypoints ;;
  Some (mkSides
          (calculateAngle (rotateVector shoulderLine 90) (left upperArmLine))
          (calculateAngle (rotateVector shoulderLine 90) (right upperArmLine))).

Definition getWristAngle (keypoints : list Keypoint) : option (Sides float) :=
  shoulderLine <- getShoulderLine keypoints ;;
  wristLine <- getWristLine keypoints ;;
  Some (mkSides
          (calculateAngle (rotateVector shoulderLine 90) (left wristLine))
          (calculateAngle (rotateVector shoulderLine 90) (right wristLine))).

Definition getBoundingBoxSize (keypoints : list Keypoint) : float :=
  let boundingBox := getBoundingBox keypoints in
  (maxX boundingBox - minX boundingBox) * (maxY boundingBox - minY boundingBox).

End Demo.

(** ** The frame loop (camera.js, [poseDetectionFrame]) *)

(** The global arrays [left_angles], [right_angles] and [faceYaws]. *)
Record Buffers : Type := mkBuffers {
  left_angles : list float;
  right_angles : list float;
  faceYaws : list float
}.

Definition push_left (b : Buffers) (v : float) : Buffers :=
  mkBuffers (left_angles b ++ [v]) (right_angles b) (faceYaws b).

Definition push_right (b : Buffers) (v : float) : Buffers :=
  mkBuffers (left_angles b) (right_angles b ++ [v]) (faceYaws b).

Definition push_faceYaw (b : Buffers) (v : float) : Buffers :=
  mkBuffers (left_angles b) (right_angles b) (faceYaws b ++ [v]).

Definition offset : float := 30.

Section Frame.

Context {host : Host}.

(** [poses.forEach(elm => { if (elm.score >= minPoseConfidence) ... })]. *)
Definition confidentPoses (poses : list Pose) (minPoseConfidence : float)
    : list Pose :=
  filter (fun elm => JS.ge (pose_score elm) minPoseConfidence) poses.

(** One turn of [for (let pose of confidentPoses)], on [(maxSize, maxPose)]. *)
Definition largerPose (acc : float * option Pose) (pose : Pose)
    : float * option Pose :=
  let size := getBoundingBoxSize (keypoints pose) in
  if JS.gt size (fst acc) then (size, Some pose) else acc.

(** [maxPose] after the loop, from [maxSize = 0] and [maxPose] undefined. *)
Definition maxPose (confident : list Pose) : option Pose :=
  snd (fold_left largerPose confident (0, None)).

Definition leftArmSample (maxPose : Pose) (minPartConfidence : float)
    (b : Buffers) : option Buffers :=
  arms <- existsArms (keypoints maxPose) minPartConfidence ;;
  if left arms then
    angles <- getArmsAngle (keypoints maxPose) ;;
    wristAngles <- getWristAngle (keypoints maxPose) ;;
    if JS.lt (left angles) (left wristAngles)
    then Some (push_left b (left wristAngles + offset))
    else Some (push_left b (left angles + offset))
  else Some b.

Definition rightArmSample (maxPose : Pose) (minPartConfidence : float)
    (b : Buffers) : option Buffers :=
  arms <- existsArms (keypoints maxPose) minPartConfidence ;;
  if right arms then
    angles <- getArmsAngle (keypoints maxPose) ;;
    wristAngles <- getWristAngle (keypoints maxPose) ;;
    if JS.lt (right angles) (right wristAngles)
    then Some (push_right b (180 - right wristAngles - offset))
    else Some (push_right b (180 - right angles - offset))
  else Some b.

Definition faceYawSample (maxPose : Pose) (minPartConfidence : float)
    (b : Buffers) : option Buffers :=
  face <- existsEyeAndNose (keypoints maxPose) minPartConfidence ;;
  if face then
    faceYaw <- getFaceYaw (keypoints maxPose) ;;
    Some (push_faceYaw b faceYaw)
  else Some b.

(** The part of [poseDetectionFrame] after the pose estimator has returned
    [poses]; the canvas drawing is left out.  [None]: the frame threw. *)
Definition poseDetectionFrame (poses : list Pose)
    (minPoseConfidence minPartConfidence : float) (b : Buffers)
    : option Buffers :=
  match maxPose (confidentPoses poses minPoseConfidence) with
  | Some maxPose =>
      b1 <- leftArmSample maxPose minPartConfidence b ;;
      b2 <- rightArmSample maxPose minPartConfidence b1 ;;
      faceYawSample maxPose minPartConfidence b2
  | None => Some b
  end.

End Frame.

(** ** The servo loop (camera.js, [startServo], [median], [moveServoTo]) *)

(** An obniz servo as the demo uses it: the [status] property the demo keeps
    on it, and the angles passed to its [angle] method, oldest first. *)
Record Servo : Type := mkServo { status : float; angle_calls : list float }.

(** [servo.angle(a)]: drives the motor.  [status] is a property the demo
    itself puts on the servo object in [bindPage]; the obniz method does not
    touch it, which is why [moveServoTo] assigns [servo.status] after each
    [servo.angle(i)]. *)
Definition servo_angle (servo : Servo) (a : float) : Servo :=
  mkServo (status servo) (angle_calls servo ++ [a]).

(** [servo.status = a]. *)
Definition set_status (servo : Servo) (a : float) : Servo :=
  mkServo a (angle_calls servo).

Definition median (list : list float) : float :=
  let half := Nat.div (List.length list) 2 in
  let sorted := JS.sort list in
  if Nat.eqb (Nat.modulo (List.length sorted) 2) 0
  then (JS.toNumber (JS.item sorted (Z.of_nat half - 1))
        + JS.toNumber (JS.item sorted (Z.of_nat half))) / 2
  else JS.toNumber (JS.item sorted (Z.of_nat half)).

(** The callback [startServo] hands to [setInterval], on the servo and the
    array it closes over. *)
Definition updateServo (servo : Servo) (angles : list float)
    : Servo * list float :=
  if Nat.ltb 0 (List.length angles) then
    let med := median angles in
    let servo' :=
      if JS.gt (JS.Math_abs (status servo - med)) 5
      then servo_angle servo med
      else servo in
    (servo', [])
  else (servo, angles).

(** The first [n] turns of [for (let i = servo.status; i <= to; i++)]. *)
Fixpoint sweepUp (n : nat) (servo : Servo) (i to : float) : Servo :=
  match n with
  | O => servo
  | S n' =>
      if JS.le i to
      then sweepUp n' (set_status (servo_angle servo i) i) (i + 1) to
      else servo
  end.

(** The first [n] turns of [for (let i = servo.status; i >= to; i--)]. *)
Fixpoint sweepDown (n : nat) (servo : Servo) (i to : float) : Servo :=
  match n with
  | O => servo
  | S n' =>
      if JS.ge i to
      then sweepDown n' (set_status (servo_angle servo i) i) (i - 1) to
      else servo
  end.

(** [moveServoTo] awaits [servo.obniz.wait(5)] after each turn of its loop;
    this is the servo after at most [n] turns. *)
Definition moveServoTo (n : nat) (servo : Servo) (to : float) : Servo :=
  if JS.lt to 0 || JS.gt to 180 then servo
  else if JS.lt (status servo) to then sweepUp n servo (status servo) to
  else if JS.gt (status servo) to then sweepDown n servo (status servo) to
  else servo.

(** *** The session: buffers shared by the frame loop and three timers *)

Record World : Type := mkWorld {
  buffers : Buffers;
  rightServo : Servo;
  leftServo : Servo;
  faceYawServo : Servo
}.

(** [bindPage]: each servo is given its [status] and driven there once. *)
Definition initialWorld : World :=
  mkWorld (mkBuffers [] [] [])
          (servo_angle (mkServo 150 []) 150)
          (servo_angle (mkServo 30 []) 30)
          (servo_angle (mkServo 90 []) 90).

Inductive Event : Type :=
  | FrameEvent (poses : list Pose) (minPoseConfidence minPartConfidence : float)
  | RightTick
  | LeftTick
  | FaceYawTick.

Section Session.

Context {host : Host}.

(** One callback run to completion.  [startServo(rightServo, right_angles)],
    [startServo(leftServo, left_angles)], [startServo(faceYawServo,
    faceYaws)]. *)
Definition step (w : World) (e : Event) : option World :=
  let b := buffers w in
  match e with
  | FrameEvent poses minPose minPart =>
      b' <- poseDetectionFrame poses minPose minPart b ;;
      Some (mkWorld b' (rightServo w) (leftServo w) (faceYawServo w))
  | RightTick =>
      let '(s, a) := updateServo (rightServo w) (right_angles b) in
      Some (mkWorld (mkBuffers (left_angles b) a (faceYaws b))
                    s (leftServo w) (faceYawServo w))
  | LeftTick =>
      let '(s, a) := updateServo (leftServo w) (left_angles b) in
      Some (mkWorld (mkBuffers a (right_angles b) (faceYaws b))
                    (rightServo w) s (faceYawServo w))
  | FaceYawTick =>
      let '(s, a) := updateServo (faceYawServo w) (faceYaws b) in
      Some (mkWorld (mkBuffers (left_angles b) (right_angles b) a)
                    (rightServo w) (leftServo w) s)
  end.

Fixpoint run (w : World) (es : list Event) : option World :=
  match es with
  | [] => Some w
  | e :: es' => w' <- step w e ;; run w' es'
  end.

End Session.

(** ** A reference host

    ECMAScript fixes [Math.acos] only at its boundary cases ([NaN] outside
    [-1, 1] and for [NaN], [+0] at [1]) and leaves [Math.cos], [Math.sin] and
    the rest of [Math.acos] to the implementation.  This host computes them
    by argument reduction and series, and reads the bounding box the way the
    posenet package does, by folding [Math.max] and [Math.min] over the
    keypoints. *)
Module RefHost.

Definition pio2_hi : float := 0x1.921fb54442d18p+0.
Definition pio2_lo : float := 0x1.1a62633145c07p-54.

(** The integer nearest to [t], for [|t| < 2^51]. *)
Definition nearest (t : float) : float :=
  (t + 0x1.8p+52) - 0x1.8p+52.

Definition toZ (t : float) : Z :=
  match Prim2SF t with
  | S754_finite sg m e =>
      let v := if (0 <=? e)%Z then (Z.pos m * 2 ^ e)%Z
               else (Z.pos m / 2 ^ (- e))%Z in
      if sg then (- v)%Z else v
  | _ => 0%Z
  end.

(** Series for the sine and cosine of a reduced argument. *)
Definition kernel_sin (r : float) : float :=
  let z := r * r in
  r * (1 + z * (-1/6 + z * (1/120 + z * (-1/5040 + z * (1/362880
    + z * (-1/39916800 + z * (1/6227020800 + z * (-1/1307674368000)))))))).

Definition kernel_cos (r : float) : float :=
  let z := r * r in
  1 + z * (-1/2 + z * (1/24 + z * (-1/720 + z * (1/40320
    + z * (-1/3628800 + z * (1/479001600 + z * (-1/87178291200))))))).

Definition reduce (a : float) : Z * float :=
  let k := nearest (a / pio2_hi) in
  (Z.modulo (toZ k) 4, (a - k * pio2_hi) - k * pio2_lo).

Definition cos (a : float) : float :=
  if is_finite a then
    let '(q, r) := reduce a in
    if (q =? 0)%Z then kernel_cos r
    else if (q =? 1)%Z then - kernel_sin r
    else if (q =? 2)%Z then - kernel_cos r
    else kernel_sin r
  else nan.

Definition sin (a : float) : float :=
  if is_finite a then
    let '(q, r) := reduce a in
    if (q =? 0)%Z then kernel_sin r
    else if (q =? 1)%Z then kernel_cos r
    else if (q =? 2)%Z then - kernel_sin r
    else - kernel_cos r
  else nan.

(** Newton's iteration on [cos t = a]. *)
Fixpoint refine (n : nat) (a t : float) : float :=
  match n with
  | O => t
  | S n' =>
      let s := sin t in
      if s =? 0 then t else refine n' a (t + (cos t - a) / s)
  end.

Definition acos (a : float) : float :=
  if is_nan a || (1 <? a) || (a <? -1) then nan
  else if a =? 1 then 0
  else
    let b := abs a in
    let t := sqrt (1 - b)
             * (1.5707288 + b * (-0.2121144 + b * (0.0742610 + b * -0.0187293))) in
    refine 5 a (if a <? 0 then JS.Math_PI - t else t).

(** [Math.max] and [Math.min] of two numbers. *)
Definition Math_max (a b : float) : float :=
  if is_nan a || is_nan b then nan
  else if a <? b then b
  else if b <? a then a
  else if 1 / a <? 1 / b then b else a.

Definition Math_min (a b : float) : float :=
  if is_nan a || is_nan b then nan
  else if a <? b then a
  else if b <? a then b
  else if 1 / a <? 1 / b then a else b.

Definition getBoundingBox (keypoints : list Keypoint) : BoundingBox :=
  fold_left
    (fun box k =>
       mkBox (Math_max (maxX box) (x (position k)))
             (Math_max (maxY box) (y (position k)))
             (Math_min (minX box) (x (position k)))
             (Math_min (minY box) (y (position k))))
    keypoints
    (mkBox neg_infinity neg_infinity infinity infinity).

#[export] Instance host : Host := {
  Math_cos := cos;
  Math_sin := sin;
  Math_acos := acos;
  getBoundingBox := getBoundingBox
}.

End RefHost.

(** ** Vocabulary of the statements *)

(** Keypoint [i] is above the threshold. *)
Definition above (keypoints : list Keypoint) (i : nat) (minConfidence : float)
    : Prop :=
  scoreAbove keypoints i minConfidence = Some true.

(** The value pushed on [left_angles]: the wrist angle when the arm angle is
    strictly below it, the arm angle otherwise, plus the offset. *)
Definition leftValue (angles wristAngles : Sides float) : float :=
  (if JS.lt (left angles) (left wristAngles)
   then left wristAngles else left angles) + offset.

(** The value pushed on [right_angles]. *)
Definition rightValue (angles wristAngles : Sides float) : float :=
  180 - (if JS.lt (right angles) (right wristAngles)
         then right wristAngles else right angles) - offset.

(** The test of the timer callback: [Math.abs(servo.status - med) > 5]. *)
Definition beyondDeadband (servo : Servo) (med : float) : bool :=
  JS.gt (JS.Math_abs (status servo - med)) 5.

(** What the selection loop has established once it has gone through [seen]:
    nothing chosen and no area above 0 so far, or the chosen pose has an area
    above 0 that no earlier pose reaches and no later pose exceeds. *)
Definition selected {host : Host} (seen : list Pose) (maxSize : float)
    (best : option Pose) : Prop :=
  match best with
  | None =>
      maxSize = 0 /\
      forall q, In q seen -> JS.gt (getBoundingBoxSize (keypoints q)) 0 = false
  | Some p =>
      maxSize = getBoundingBoxSize (keypoints p) /\
      JS.gt (getBoundingBoxSize (keypoints p)) 0 = true /\
      exists earlier later,
        seen = earlier ++ p :: later /\
        (forall q, In q earlier ->
           JS.ge (getBoundingBoxSize (keypoints q))
                 (getBoundingBoxSize (keypoints p)) = false) /\
        (forall q, In q later ->
           JS.gt (getBoundingBoxSize (keypoints q))
                 (getBoundingBoxSize (keypoints p)) = false)
  end.

(** The three timer callbacks, as opposed to a frame. *)
Definition isTick (e : Event) : bool :=
  match e with
  | FrameEvent _ _ _ => false
  | _ => true
  end.

(** The keypoints with the score of keypoint [i] replaced. *)
Fixpoint setScore (i : nat) (s : float) (keypoints : list Keypoint)
    : list Keypoint :=
  match keypoints, i with
  | [], _ => []
  | k :: rest, O => mkKeypoint s (position k) :: rest
  | k :: rest, S i' => k :: setScore i' s rest
  end.

(** [NaN], [Infinity] or [-Infinity]. *)
Definition nonfinite (a : float) : Prop :=
  Prim2SF a = S754_nan \/ exists sg, Prim2SF a = S754_infinity sg.

(** Not [NaN]. *)
Definition is_number (f : spec_float) : Prop := f <> S754_nan.
Definition number (a : float) : Prop := is_number (Prim2SF a).

(** A key whose lexicographic order is the order of the numbers. *)
Definition key (f : spec_float) : Z * Z * Z :=
  match f with
  | S754_zero _ => (0, 0, 0)%Z
  | S754_infinity sg => (if sg then (-2, 0, 0) else (2, 0, 0))%Z
  | S754_nan => (0, 0, 0)%Z
  | S754_finite sg m e =>
      (if sg then (-1, - e, - Z.pos m) else (1, e, Z.pos m))%Z
  end.

Definition fkey (a : float) : Z * Z * Z := key (Prim2SF a).

Definition lex_lt (a b : Z * Z * Z) : Prop :=
  let '(a1, a2, a3) := a in
  let '(b1, b2, b3) := b in
  (a1 < b1 \/ (a1 = b1 /\ (a2 < b2 \/ (a2 = b2 /\ a3 < b3))))%Z.

(** *** The specification's readings, for comparison *)

(** Samples in ascending numeric order. *)
Fixpoint insertAscending (a : float) (l : list float) : list float :=
  match l with
  | [] => [a]
  | b :: l' => if JS.lt b a then b :: insertAscending a l' else a :: l
  end.

Definition sortAscending (l : list float) : list float :=
  fold_right insertAscending [] l.

(** The median as the specification words it: sort ascending, middle element
    for an odd length, mean of the two middle elements for an even one. *)
Definition median_ascending (list : list float) : float :=
  let half := Nat.div (List.length list) 2 in
  let sorted := sortAscending list in
  if Nat.eqb (Nat.modulo (List.length sorted) 2) 0
  then (JS.toNumber (JS.item sorted (Z.of_nat half - 1))
        + JS.toNumber (JS.item sorted (Z.of_nat half))) / 2
  else JS.toNumber (JS.item sorted (Z.of_nat half)).

(** The face yaw as the specification words it:
    [180 - (|eyeToNose.x| / |eyeVector|) * 180]. *)
Definition faceYaw_xRatio (keypoints : list Keypoint) : option float :=
  nose <- positionOf keypoints 0 ;;
  leftEye <- positionOf keypoints 1 ;;
  rightEye <- positionOf keypoints 2 ;;
  let eyeVector := mkVector (x rightEye - x leftEye) (y rightEye - y leftEye) in
  Some (180 - (JS.Math_abs (x nose - x leftEye) / norm eyeVector) * 180).

(** *** Poses used as concrete inputs

    Seventeen keypoints in PoseNet's order: nose, eyes, ears, shoulders,
    elbows, wrists, hips, knees, ankles; left before right.  The canvas is
    600 by 500 and [y] grows downwards. *)

Definition keypoint (s px py : float) : Keypoint :=
  mkKeypoint s (mkVector px py).

Definition legs : list Keypoint :=
  [keypoint 0.9 340 350; keypoint 0.9 260 350; keypoint 0.8 340 420;
   keypoint 0.8 260 420; keypoint 0.7 340 490; keypoint 0.7 260 490].

Definition emptyBuffers : Buffers := mkBuffers [] [] [].

(** Arms hanging straight down; the wrists are reported above the shoulders
    with a score below the part threshold. *)
Definition standing : Pose :=
  mkPose 0.9
    ([keypoint 0.9 300 100; keypoint 0.9 310 90; keypoint 0.9 290 90;
      keypoint 0.9 320 95; keypoint 0.9 280 95;
      keypoint 0.9 350 200; keypoint 0.9 250 200;
      keypoint 0.9 350 300; keypoint 0.9 250 300;
      keypoint 0.05 350 100; keypoint 0.05 250 100] ++ legs).

(** Both eyes reported at one point, and the left elbow on the left
    shoulder. *)
Definition coincident : Pose :=
  mkPose 0.9
    ([keypoint 0.9 310 100; keypoint 0.9 300 90; keypoint 0.9 300 90;
      keypoint 0.9 320 95; keypoint 0.9 280 95;
      keypoint 0.9 350 200; keypoint 0.9 250 200;
      keypoint 0.9 350 200; keypoint 0.05 250 300;
      keypoint 0.9 350 380; keypoint 0.9 250 380] ++ legs).

(** Shoulders two pixels off level, upper arms at a right angle to the
    shoulder line. *)
Definition slanted : Pose :=
  mkPose 0.9
    ([keypoint 0.9 300 100; keypoint 0.9 310 90; keypoint 0.9 290 90;
      keypoint 0.9 320 95; keypoint 0.9 280 95;
      keypoint 0.9 350 202; keypoint 0.9 250 200;
      keypoint 0.9 348 302; keypoint 0.9 248 300;
      keypoint 0.9 348 380; keypoint 0.9 248 380] ++ legs).

(** The head tilted: the eye line falls 12 pixels over 16. *)
Definition tiltedHead : Pose :=
  mkPose 0.9
    ([keypoint 0.9 301 100; keypoint 0.9 310 84; keypoint 0.9 294 96;
      keypoint 0.9 320 95; keypoint 0.9 280 95;
      keypoint 0.9 350 200; keypoint 0.9 250 200;
      keypoint 0.05 350 300; keypoint 0.05 250 300;
      keypoint 0.05 350 380; keypoint 0.05 250 380] ++ legs).

(** Every keypoint of [standing] moved onto the line [x = 300]: a bounding
    box of width 0. *)
Definition edgeOn : Pose :=
  mkPose 0.9
    (map (fun k => mkKeypoint (score k) (mkVector 300 (y (position k))))
         (keypoints standing)).

(** A smaller person further back. *)
Definition bystander : Pose :=
  mkPose 0.6
    ([keypoint 0.9 100 100; keypoint 0.9 104 96; keypoint 0.9 96 96;
      keypoint 0.9 108 98; keypoint 0.9 92 98;
      keypoint 0.9 120 130; keypoint 0.9 80 130;
      keypoint 0.9 125 160; keypoint 0.9 75 160;
      keypoint 0.9 128 185; keypoint 0.9 72 185]
     ++ [keypoint 0.9 115 200; keypoint 0.9 85 200; keypoint 0.8 115 240;
         keypoint 0.8 85 240; keypoint 0.7 115 280; keypoint 0.7 85 280]).

(** ** Drawing the keypoints (demo_util.js)

    The 2D context is the list of calls made on it, oldest first. *)

Inductive CanvasCall : Type :=
  | BeginPath
  | Arc (cx cy r startAngle endAngle : float)
  | FillStyle (style : string)
  | Fill.

Definition color : string := "aqua".

(** [drawPoint(ctx, y, x, r, color)]. *)
Definition drawPoint (ctx : list CanvasCall) (py px r : float)
    (style : string) : list CanvasCall :=
  ctx ++ [BeginPath; Arc px py r 0 (2 * JS.Math_PI); FillStyle style; Fill].

(** [drawKeypoints(keypoints, minConfidence, ctx, scale)]: the loop over
    [keypoints], which [continue]s on a score below the threshold. *)
Fixpoint drawKeypoints (keypoints : list Keypoint) (minConfidence : float)
    (ctx : list CanvasCall) (scale : float) : list CanvasCall :=
  match keypoints with
  | [] => ctx
  | keypoint :: rest =>
      if JS.lt (score keypoint) minConfidence
      then drawKeypoints rest minConfidence ctx scale
      else drawKeypoints rest minConfidence
             (drawPoint ctx (y (position keypoint) * scale)
                        (x (position keypoint) * scale) 3 color)
             scale
  end.

(** ** Vocabulary of the further statements *)

(** The arc [drawKeypoints] draws for a keypoint. *)
Definition keypointArc (k : Keypoint) (scale : float) : CanvasCall :=
  Arc (x (position k) * scale) (y (position k) * scale) 3 0 (2 * JS.Math_PI).

(** [Math.abs(s0 - a) > 5]: [a] is beyond the deadband around [s0]. *)
Definition beyond (s0 a : float) : bool :=
  JS.gt (JS.Math_abs (s0 - a)) 5.

Definition isRightTick (e : Event) : bool :=
  match e with RightTick => true | _ => false end.

Definition isLeftTick (e : Event) : bool :=
  match e with LeftTick => true | _ => false end.

Definition isFaceYawTick (e : Event) : bool :=
  match e with FaceYawTick => true | _ => false end.

(** A servo that still has the [status] it was given in [bindPage], was
    driven there first, and since then only beyond the deadband around it. *)
Definition asStarted (s0 : float) (servo : Servo) : Prop :=
  status servo = s0 /\
  exists later,
    angle_calls servo = s0 :: later /\
    Forall (fun a => beyond s0 a = true) later.

(** The three servos of a session are as started: right at 150, left at 30,
    head at 90. *)
Definition sessionAsStarted (w : World) : Prop :=
  asStarted 150 (rightServo w) /\
  asStarted 30 (leftServo w) /\
  asStarted 90 (faceYawServo w).

(** A frame on [standing], then the timers: left, right, head, left again. *)
Definition sessionEvents : list Event :=
  [FrameEvent [standing] 0.15 0.1; LeftTick; RightTick; FaceYawTick; LeftTick].

(** Where [sessionEvents] leave the session. *)
Definition sessionEnd : World :=
  mkWorld (mkBuffers [] [] [])
          (mkServo 150 [150; -30]) (mkServo 30 [30; 210]) (mkServo 90 [90]).

(** A pose the estimator reports without any keypoint. *)
Definition noKeypoints : Pose := mkPose 0.9 [].

(** ** The order of binary64 numbers

    [<?] and [<=?] on [float] are specified through [SFcompare]; on numbers
    it is the lexicographic order of [key]. *)

Ltac settle_compare :=
  cbn [SFcompare key lex_lt CompOpp];
  eexists; split; [reflexivity |];
  split; split;
  (let H := fresh "H" in
   intro H;
   first [ discriminate H | reflexivity | lia | (injection H; lia)
         | (subst; reflexivity) | (cbn in H; lia) | (f_equal; lia) ]).

Lemma SFcompare_key (f g : spec_float) :
  is_number f -> is_number g ->
  exists c, SFcompare f g = Some c /\
    (c = Lt <-> lex_lt (key f) (key g)) /\
    (c = Eq <-> key f = key g).
Proof.
  intros Hf Hg.
  destruct f as [sf | sf | | sf mf ef]; try (exfalso; apply Hf; reflexivity);
  destruct g as [sg | sg | | sg mg eg]; try (exfalso; apply Hg; reflexivity);
  cbn [SFcompare key lex_lt].
  1-8: try (destruct sf); try (destruct sg); settle_compare.
  change (PosDef.Pos.compare_cont Eq mf mg) with (Pos.compare mf mg).
  destruct sf, sg; [ | settle_compare | settle_compare | ];
    destruct (Z.compare_spec ef eg); destruct (Pos.compare_spec mf mg);
    settle_compare.
Qed.

Lemma SFcompare_nan_r (f : spec_float) : SFcompare f S754_nan = None.
Proof. destruct f; reflexivity. Qed.

Lemma SFcompare_some (f g : spec_float) (c : comparison) :
  SFcompare f g = Some c -> is_number f /\ is_number g.
Proof.
  intro H; split; intro E; subst.
  - discriminate H.
  - rewrite SFcompare_nan_r in H; discriminate.
Qed.

Lemma ltb_true_iff (a b : float) :
  (a <? b) = true <-> number a /\ number b /\ lex_lt (fkey a) (fkey b).
Proof.
  rewrite ltb_spec; unfold SFltb, number, fkey; split.
  - destruct (SFcompare (Prim2SF a) (Prim2SF b)) as [c |] eqn:E;
      [| discriminate].
    destruct (SFcompare_some _ _ _ E) as [Ha Hb].
    destruct (SFcompare_key _ _ Ha Hb) as (c' & E' & Hlt & _).
    rewrite E in E'; injection E' as <-.
    destruct c; try discriminate; intros _.
    repeat split; try assumption. apply Hlt; reflexivity.
  - intros (Ha & Hb & Hl).
    destruct (SFcompare_key _ _ Ha Hb) as (c & E & Hlt & _).
    rewrite E. apply Hlt in Hl; subst; reflexivity.
Qed.

Lemma leb_true_iff (a b : float) :
  (a <=? b) = true <->
  number a /\ number b /\ (lex_lt (fkey a) (fkey b) \/ fkey a = fkey b).
Proof.
  rewrite leb_spec; unfold SFleb, number, fkey; split.
  - destruct (SFcompare (Prim2SF a) (Prim2SF b)) as [c |] eqn:E;
      [| discriminate].
    destruct (SFcompare_some _ _ _ E) as [Ha Hb].
    destruct (SFcompare_key _ _ Ha Hb) as (c' & E' & Hlt & Heq).
    rewrite E in E'; injection E' as <-.
    destruct c; try discriminate; intros _; repeat split; try assumption.
    + right; apply Heq; reflexivity.
    + left; apply Hlt; reflexivity.
  - intros (Ha & Hb & Hl).
    destruct (SFcompare_key _ _ Ha Hb) as (c & E & Hlt & Heq).
    rewrite E. destruct Hl as [Hl | Hl].
    + apply Hlt in Hl; subst; reflexivity.
    + apply Heq in Hl; subst; reflexivity.
Qed.

Lemma lex_lt_trans (u v w : Z * Z * Z) :
  lex_lt u v -> lex_lt v w -> lex_lt u w.
Proof.
  destruct u as [[u1 u2] u3], v as [[v1 v2] v3], w as [[w1 w2] w3];
    cbn [lex_lt]; lia.
Qed.

Lemma lex_lt_irrefl (u : Z * Z * Z) : ~ lex_lt u u.
Proof. destruct u as [[u1 u2] u3]; cbn [lex_lt]; lia. Qed.

Lemma lex_total (u v : Z * Z * Z) : lex_lt u v \/ u = v \/ lex_lt v u.
Proof.
  destruct u as [[u1 u2] u3], v as [[v1 v2] v3]; cbn [lex_lt].
  destruct (Z.lt_trichotomy u1 v1) as [? | [? | ?]];
    destruct (Z.lt_trichotomy u2 v2) as [? | [? | ?]];
    destruct (Z.lt_trichotomy u3 v3) as [? | [? | ?]];
    subst; auto; try (left; lia); try (right; right; lia).
Qed.

Lemma ltb_leb_trans (a b c : float) :
  (a <? b) = true -> (b <=? c) = true -> (a <? c) = true.
Proof.
  rewrite !ltb_true_iff, leb_true_iff.
  intros (Ha & Hb & H1) (_ & Hc & [H2 | H2]); repeat split; auto.
  - eapply lex_lt_trans; eassumption.
  - rewrite <- H2; assumption.
Qed.

Lemma leb_trans (a b c : float) :
  (a <=? b) = true -> (b <=? c) = true -> (a <=? c) = true.
Proof.
  rewrite !leb_true_iff.
  intros (Ha & Hb & H1) (_ & Hc & H2); repeat split; auto.
  destruct H1 as [H1 | H1], H2 as [H2 | H2].
  - left; eapply lex_lt_trans; eassumption.
  - left; rewrite <- H2; assumption.
  - left; rewrite H1; assumption.
  - right; congruence.
Qed.

Lemma ltb_leb (a b : float) : (a <? b) = true -> (a <=? b) = true.
Proof.
  rewrite ltb_true_iff, leb_true_iff; intros (Ha & Hb & H); auto.
Qed.

Lemma ltb_not_leb (a b : float) : (a <? b) = true -> (b <=? a) = false.
Proof.
  intro H; apply not_true_is_false; intro H'.
  pose proof (ltb_leb_trans _ _ _ H H') as Hc.
  apply ltb_true_iff in Hc; destruct Hc as (_ & _ & Hc).
  exact (lex_lt_irrefl _ Hc).
Qed.

(** Two numbers are comparable. *)
Lemma not_ltb_leb (a b : float) :
  number a -> number b -> (a <? b) = false -> (b <=? a) = true.
Proof.
  intros Ha Hb H. apply leb_true_iff; repeat split; auto.
  destruct (lex_total (fkey a) (fkey b)) as [Hl | [Hl | Hl]]; auto.
  exfalso. assert ((a <? b) = true) by (apply ltb_true_iff; auto).
  congruence.
Qed.

Lemma leb_number (a b : float) : (a <=? b) = true -> number a /\ number b.
Proof. rewrite leb_true_iff; intros (Ha & Hb & _); auto. Qed.

Lemma ltb_number (a b : float) : (a <? b) = true -> number a /\ number b.
Proof. rewrite ltb_true_iff; intros (Ha & Hb & _); auto. Qed.

(** ** Values that are not finite *)

Lemma nonfinite_is_finite (a : float) : nonfinite a -> is_finite a = false.
Proof.
  unfold is_finite, is_nan, is_infinity.
  intros [H | [sg H]].
  - rewrite (FloatAxioms.eqb_spec a a), H; reflexivity.
  - rewrite (FloatAxioms.eqb_spec (abs a) infinity), abs_spec, H.
    rewrite orb_comm; reflexivity.
Qed.

Lemma eqb_zero (b : float) :
  (b =? 0) = true -> exists sg, Prim2SF b = S754_zero sg.
Proof.
  rewrite FloatAxioms.eqb_spec.
  change (Prim2SF 0) with (S754_zero false).
  destruct (Prim2SF b) as [sg | sg | | sg m e]; cbn; try discriminate.
  - eauto.
  - destruct sg; discriminate.
  - destruct sg; discriminate.
Qed.

(** Dividing by a zero never gives a finite value. *)
Lemma div_zero_nonfinite (a b : float) : (b =? 0) = true -> nonfinite (a / b).
Proof.
  intro H; destruct (eqb_zero b H) as [sg Hb].
  unfold nonfinite; rewrite div_spec, Hb.
  destruct (Prim2SF a); cbn; eauto.
Qed.

Lemma mul_180_nonfinite (a : float) : nonfinite a -> nonfinite (a * 180).
Proof.
  unfold nonfinite; rewrite mul_spec.
  change (Prim2SF 180) with (S754_finite false 6333186975989760 (-45)).
  intros [H | [sg H]]; rewrite H; cbn; eauto.
Qed.

Lemma sub_180_nonfinite (a : float) : nonfinite a -> nonfinite (180 - a).
Proof.
  unfold nonfinite; rewrite sub_spec.
  change (Prim2SF 180) with (S754_finite false 6333186975989760 (-45)).
  intros [H | [sg H]]; rewrite H; cbn; eauto.
Qed.

(** ** Reads of a pose with all its keypoints *)

Lemma scoreAbove_defined (keypoints : list Keypoint) (i : nat) (c : float) :
  (i < List.length keypoints)%nat -> exists b, scoreAbove keypoints i c = Some b.
Proof.
  intro H. unfold scoreAbove.
  destruct (nth_error keypoints i) as [k |] eqn:E.
  - cbn; eauto.
  - apply nth_error_None in E; lia.
Qed.

Lemma positionOf_defined (keypoints : list Keypoint) (i : nat) :
  (i < List.length keypoints)%nat -> exists v, positionOf keypoints i = Some v.
Proof.
  intro H. unfold positionOf.
  destruct (nth_error keypoints i) as [k |] eqn:E.
  - cbn; eauto.
  - apply nth_error_None in E; lia.
Qed.

Ltac read_scores kps c idx :=
  match idx with
  | nil => idtac
  | cons ?i ?rest =>
      let b := fresh "b" in
      let E := fresh "E" in
      destruct (scoreAbove_defined kps i c) as [b E]; [lia |];
      read_scores kps c rest
  end.

Ltac read_positions kps idx :=
  match idx with
  | nil => idtac
  | cons ?i ?rest =>
      let v := fresh "v" in
      let E := fresh "E" in
      destruct (positionOf_defined kps i) as [v E]; [lia |];
      read_positions kps rest
  end.

Lemma existsArms_total (keypoints : list Keypoint) (c : float) :
  (9 <= List.length keypoints)%nat -> exists r, existsArms keypoints c = Some r.
Proof.
  intro H. unfold existsArms.
  read_scores keypoints c [5; 6; 7; 8]%nat.
  repeat match goal with E : scoreAbove _ _ _ = _ |- _ => rewrite E; clear E end.
  destruct b, b0, b1, b2; cbn; eauto.
Qed.

Lemma existsEyeAndNose_total (keypoints : list Keypoint) (c : float) :
  (3 <= List.length keypoints)%nat ->
  exists r, existsEyeAndNose keypoints c = Some r.
Proof.
  intro H. unfold existsEyeAndNose.
  read_scores keypoints c [0; 1; 2]%nat.
  repeat match goal with E : scoreAbove _ _ _ = _ |- _ => rewrite E; clear E end.
  destruct b, b0, b1; cbn; eauto.
Qed.

Lemma getFaceYaw_total (keypoints : list Keypoint) :
  (3 <= List.length keypoints)%nat -> exists v, getFaceYaw keypoints = Some v.
Proof.
  intro H. unfold getFaceYaw.
  read_positions keypoints [0; 1; 2]%nat.
  repeat match goal with E : positionOf _ _ = _ |- _ => rewrite E; clear E end.
  cbn; eauto.
Qed.

Section Reads.

Context {host : Host}.

Lemma getArmsAngle_total (keypoints : list Keypoint) :
  (9 <= List.length keypoints)%nat -> exists r, getArmsAngle keypoints = Some r.
Proof.
  intro H. unfold getArmsAngle, getShoulderLine, getUpperArmLine.
  read_positions keypoints [5; 6; 7; 8]%nat.
  repeat match goal with E : positionOf _ _ = _ |- _ => rewrite E; clear E end.
  cbn; eauto.
Qed.

Lemma getWristAngle_total (keypoints : list Keypoint) :
  (11 <= List.length keypoints)%nat ->
  exists r, getWristAngle keypoints = Some r.
Proof.
  intro H. unfold getWristAngle, getShoulderLine, getWristLine.
  read_positions keypoints [5; 6; 9; 10]%nat.
  repeat match goal with E : positionOf _ _ = _ |- _ => rewrite E; clear E end.
  cbn; eauto.
Qed.

(** The three sample steps of a frame on the selected pose. *)
Lemma samples_on_pose (p : Pose) (c : float) (b : Buffers) :
  (11 <= List.length (keypoints p))%nat ->
  exists arms face angles wristAngles faceYaw,
    existsArms (keypoints p) c = Some arms /\
    existsEyeAndNose (keypoints p) c = Some face /\
    getArmsAngle (keypoints p) = Some angles /\
    getWristAngle (keypoints p) = Some wristAngles /\
    getFaceYaw (keypoints p) = Some faceYaw /\
    (b1 <- leftArmSample p c b ;;
     b2 <- rightArmSample p c b1 ;;
     faceYawSample p c b2)
    = Some (mkBuffers
              (left_angles b
               ++ if left arms then [leftValue angles wristAngles] else [])
              (right_angles b
               ++ if right arms then [rightValue angles wristAngles] else [])
              (faceYaws b ++ if face then [faceYaw] else [])).
Proof.
  intro H.
  destruct (existsArms_total (keypoints p) c) as [arms Ea]; [lia |].
  destruct (existsEyeAndNose_total (keypoints p) c) as [face Ef]; [lia |].
  destruct (getArmsAngle_total (keypoints p)) as [angles Eg]; [lia |].
  destruct (getWristAngle_total (keypoints p)) as [wristAngles Ew]; [lia |].
  destruct (getFaceYaw_total (keypoints p)) as [faceYaw Ey]; [lia |].
  exists arms, face, angles, wristAngles, faceYaw.
  repeat (split; [assumption |]).
  unfold leftArmSample, rightArmSample, faceYawSample, leftValue, rightValue.
  rewrite Ea, Ef, Eg, Ew, Ey.
  destruct b as [ls rs ys], arms as [[|] [|]], face; cbn;
    repeat match goal with
      | |- context [if ?t then _ else _] => destruct t; cbn
      end;
    rewrite ?app_nil_r; reflexivity.
Qed.

Lemma frame_on_maxPose (poses : list Pose) (mp c : float) (b : Buffers)
    (p : Pose) :
  maxPose (confidentPoses poses mp) = Some p ->
  poseDetectionFrame poses mp c b
  = (b1 <- leftArmSample p c b ;;
     b2 <- rightArmSample p c b1 ;;
     faceYawSample p c b2).
Proof. intro H; unfold poseDetectionFrame; rewrite H; reflexivity. Qed.

Lemma frame_without_maxPose (poses : list Pose) (mp c : float) (b : Buffers) :
  maxPose (confidentPoses poses mp) = None ->
  poseDetectionFrame poses mp c b = Some b.
Proof. intro H; unfold poseDetectionFrame; rewrite H; reflexivity. Qed.

End Reads.

(** ** The selection loop *)

Section Selection.

Context {host : Host}.

Lemma largerPose_selected (seen : list Pose) (m : float) (best : option Pose)
    (r : Pose) :
  selected seen m best ->
  selected (seen ++ [r]) (fst (largerPose (m, best) r))
           (snd (largerPose (m, best) r)).
Proof.
  unfold largerPose, JS.gt; cbn [fst snd].
  destruct best as [p |]; cbn [selected].
  - intros (-> & Hpos & l1 & l2 & -> & Hl1 & Hl2).
    destruct (getBoundingBoxSize (keypoints p)
              <? getBoundingBoxSize (keypoints r)) eqn:E;
      cbn [fst snd selected].
    + split; [reflexivity |]. split.
      * unfold JS.gt in *.
        eapply ltb_leb_trans; [exact Hpos | apply ltb_leb; exact E].
      * exists (l1 ++ p :: l2), []. split; [reflexivity |]. split.
        -- intros q Hq. unfold JS.ge. apply not_true_is_false; intro Hc.
           pose proof (ltb_leb_trans _ _ _ E Hc) as Hlt.
           apply in_app_or in Hq; destruct Hq as [Hq | [<- | Hq]].
           ++ specialize (Hl1 q Hq). unfold JS.ge in Hl1.
              rewrite (ltb_leb _ _ Hlt) in Hl1; discriminate.
           ++ apply ltb_true_iff in Hlt; destruct Hlt as (_ & _ & Hlt).
              exact (lex_lt_irrefl _ Hlt).
           ++ specialize (Hl2 q Hq). unfold JS.gt in Hl2.
              rewrite Hlt in Hl2; discriminate.
        -- intros q [].
    + split; [reflexivity |]. split; [exact Hpos |].
      exists l1, (l2 ++ [r]). split.
      * rewrite <- app_assoc; reflexivity.
      * split; [exact Hl1 |]. intros q Hq.
        apply in_app_or in Hq; destruct Hq as [Hq | [<- | []]].
        -- exact (Hl2 q Hq).
        -- exact E.
  - intros (-> & Hnone).
    destruct (0 <? getBoundingBoxSize (keypoints r)) eqn:E;
      cbn [fst snd selected].
    + split; [reflexivity |]. split; [exact E |].
      exists seen, []. split; [reflexivity |]. split.
      * intros q Hq. unfold JS.ge. apply not_true_is_false; intro Hc.
        pose proof (ltb_leb_trans _ _ _ E Hc) as Hlt.
        specialize (Hnone q Hq). unfold JS.gt in Hnone.
        rewrite Hlt in Hnone; discriminate.
      * intros q [].
    + split; [reflexivity |]. intros q Hq.
      apply in_app_or in Hq; destruct Hq as [Hq | [<- | []]].
      * exact (Hnone q Hq).
      * exact E.
Qed.

Lemma fold_selected (l : list Pose) :
  forall (seen : list Pose) (m : float) (best : option Pose),
    selected seen m best ->
    selected (seen ++ l) (fst (fold_left largerPose l (m, best)))
             (snd (fold_left largerPose l (m, best))).
Proof.
  induction l as [| r l IH]; intros seen m best H.
  - rewrite app_nil_r; exact H.
  - cbn [fold_left].
    pose proof (largerPose_selected seen m best r H) as Hr.
    destruct (largerPose (m, best) r) as [m' best'].
    specialize (IH (seen ++ [r]) m' best' Hr).
    rewrite <- app_assoc in IH. exact IH.
Qed.

Lemma maxPose_selected (confident : list Pose) :
  exists m, selected confident m (maxPose confident).
Proof.
  exists (fst (fold_left largerPose confident (0, None))).
  apply (fold_selected confident [] 0 None).
  split; [reflexivity |]. intros q [].
Qed.

End Selection.

(** ** The timer callback and the sweeps *)

Lemma updateServo_empty (servo : Servo) : updateServo servo [] = (servo, []).
Proof. reflexivity. Qed.

Lemma updateServo_nonempty (servo : Servo) (angles : list float) :
  angles <> [] ->
  updateServo servo angles
  = (if beyondDeadband servo (median angles)
     then servo_angle servo (median angles) else servo, []).
Proof.
  intro H. destruct angles as [| a rest]; [contradiction |]. reflexivity.
Qed.

Lemma updateServo_status (servo : Servo) (angles : list float) :
  status (fst (updateServo servo angles)) = status servo.
Proof.
  destruct angles as [| a rest]; [reflexivity |].
  rewrite updateServo_nonempty by discriminate.
  destruct (beyondDeadband servo (median (a :: rest))); reflexivity.
Qed.

Lemma sweepUp_calls (n : nat) :
  forall (servo : Servo) (i to : float),
  exists more,
    angle_calls (sweepUp n servo i to) = angle_calls servo ++ more /\
    forall a, In a more -> JS.le a to = true.
Proof.
  induction n as [| n IH]; intros servo i to; cbn [sweepUp].
  - exists []. rewrite app_nil_r. split; [reflexivity | intros a []].
  - destruct (JS.le i to) eqn:E.
    + destruct (IH (set_status (servo_angle servo i) i) (i + 1) to)
        as (more & Hcalls & Hmore).
      exists (i :: more). split.
      * rewrite Hcalls; cbn. rewrite <- app_assoc; reflexivity.
      * intros a [<- | Ha]; [exact E | exact (Hmore a Ha)].
    + exists []. rewrite app_nil_r. split; [reflexivity | intros a []].
Qed.

Lemma sweepDown_calls (n : nat) :
  forall (servo : Servo) (i to : float),
  exists more,
    angle_calls (sweepDown n servo i to) = angle_calls servo ++ more /\
    forall a, In a more -> JS.ge a to = true.
Proof.
  induction n as [| n IH]; intros servo i to; cbn [sweepDown].
  - exists []. rewrite app_nil_r. split; [reflexivity | intros a []].
  - destruct (JS.ge i to) eqn:E.
    + destruct (IH (set_status (servo_angle servo i) i) (i - 1) to)
        as (more & Hcalls & Hmore).
      exists (i :: more). split.
      * rewrite Hcalls; cbn. rewrite <- app_assoc; reflexivity.
      * intros a [<- | Ha]; [exact E | exact (Hmore a Ha)].
    + exists []. rewrite app_nil_r. split; [reflexivity | intros a []].
Qed.

Lemma updateServo_drains (servo : Servo) (angles : list float) :
  snd (updateServo servo angles) = [].
Proof.
  destruct angles as [| a rest]; [reflexivity |].
  rewrite updateServo_nonempty by discriminate. reflexivity.
Qed.

(** A timer that fires twice with no frame in between does the second time
    nothing. *)
Lemma tick_twice {host : Host} (w w1 : World) (e : Event) :
  isTick e = true -> step w e = Some w1 -> step w1 e = Some w1.
Proof.
  destruct e as [poses mp c | | |]; intro Ht; try discriminate Ht;
    cbn [step];
    match goal with
    | |- context [updateServo ?s ?a] =>
        pose proof (updateServo_drains s a) as Hd;
        destruct (updateServo s a) as [s1 a1]
    end;
    cbn [snd] in Hd; subst a1; intro H; injection H as <-; reflexivity.
Qed.

(** [sort()] rearranges the samples and loses none. *)
Lemma insert_permutation (a : float) (l : list float) :
  Permutation (JS.insert a l) (a :: l).
Proof.
  induction l as [| b l IH]; cbn [JS.insert]; [reflexivity |].
  destruct (JS.sortCompare_lt b a); [| reflexivity].
  rewrite IH. apply perm_swap.
Qed.

Lemma sort_permutation (l : list float) : Permutation (JS.sort l) l.
Proof.
  induction l as [| a l IH]; cbn [JS.sort fold_right]; [constructor |].
  fold (JS.sort l). rewrite insert_permutation. constructor; exact IH.
Qed.

Lemma sort_length (l : list float) :
  List.length (JS.sort l) = List.length l.
Proof. apply Permutation_length, sort_permutation. Qed.

Lemma number_0 : number 0.
Proof. intro H; vm_compute in H; discriminate. Qed.

Lemma number_180 : number 180.
Proof. intro H; vm_compute in H; discriminate. Qed.

(** ** Scores and positions under [setScore] *)




(** ** The claims *)

(** C1.  The value that drives the servo decision is [median] of the buffer,
    and [median] orders the samples with [sort()], that is by their decimal
    strings: it returns 20 on [10, 20, 30] and 25 on [10, 20, 30, 40], where the
    two orders agree, but 110 on [90, 100, 110], whose median in ascending
    numeric order is 100. *)
Theorem median_orders_by_string :
  median [10; 20; 30] = 20 /\
  median [10; 20; 30; 40] = 25 /\
  JS.sort [90; 100; 110] = [100; 110; 90] /\
  median [90; 100; 110] = 110 /\
  median_ascending [90; 100; 110] = 100 /\
  fst (updateServo (mkServo 90 []) [90; 100; 110]) = mkServo 90 [110].
Proof. repeat split; vm_compute; reflexivity. Qed.

(** C3.  With [status] 90 a median of 93 sends nothing and a median of 96
    sends 96, but the callback never writes [status]: after the command to 96
    it is still 90, so the same median on the next tick is sent again. *)
Theorem deadband_leaves_status :
  updateServo (mkServo 90 []) [93] = (mkServo 90 [], []) /\
  updateServo (mkServo 90 []) [96] = (mkServo 90 [96], []) /\
  updateServo (mkServo 90 [96]) [96] = (mkServo 90 [96; 96], []) /\
  (forall servo angles, status (fst (updateServo servo angles)) = status servo).
Proof.
  split; [vm_compute; reflexivity |].
  split; [vm_compute; reflexivity |].
  split; [vm_compute; reflexivity |].
  exact updateServo_status.
Qed.

(** C10.  Five samples 90, 95, 100, 105, 110 are appended and the timer
    ticks twice.  The first tick takes all five, leaves the buffer empty and
    sends one angle; the second sends nothing.  But the angle sent is not the
    median of the five, which is 100: [median] orders them by their strings,
    as 100, 105, 110, 90, 95, and the tick sends 110. *)
Theorem drain_yields_string_median :
  JS.sort [90; 95; 100; 105; 110] = [100; 105; 110; 90; 95] /\
  median [90; 95; 100; 105; 110] = 110 /\
  median_ascending [90; 95; 100; 105; 110] = 100 /\
  updateServo (mkServo 90 [90]) [90; 95; 100; 105; 110]
  = (mkServo 90 [90; 110], []) /\
  updateServo (mkServo 90 [90; 110]) [] = (mkServo 90 [90; 110], []) /\
  beyondDeadband (mkServo 90 [90]) 100 = true.
Proof. repeat split; vm_compute; reflexivity. Qed.

(** X21.  A tick on a non-empty buffer hands the whole buffer to [median],
    sends the value [median] returns when it is beyond the deadband and
    nothing otherwise, and leaves the buffer empty; the next tick, with
    nothing appended in between, changes nothing. *)
Theorem drain_exactly_once (servo : Servo) (angles : list float) :
  angles <> [] ->
  exists servo',
    updateServo servo angles = (servo', []) /\
    status servo' = status servo /\
    angle_calls servo'
    = angle_calls servo
      ++ (if beyondDeadband servo (median angles) then [median angles] else [])
    /\ updateServo servo' [] = (servo', []).
Proof.
  intro H. rewrite (updateServo_nonempty servo angles H).
  destruct (beyondDeadband servo (median angles)); eexists;
    (split; [reflexivity |]); cbn; rewrite ?app_nil_r; auto.
Qed.

(** Five samples appended, then two ticks. *)
Lemma drain_five_samples :
  [40; 50; 60; 70; 80] <> [] /\
  exists servo',
    updateServo (mkServo 90 [90]) [40; 50; 60; 70; 80] = (servo', []) /\
    status servo' = 90 /\
    angle_calls servo'
    = [90] ++ (if beyondDeadband (mkServo 90 [90]) (median [40; 50; 60; 70; 80])
               then [median [40; 50; 60; 70; 80]] else [])
    /\ updateServo servo' [] = (servo', []).
Proof.
  split; [discriminate |].
  apply (drain_exactly_once (mkServo 90 [90]) [40; 50; 60; 70; 80]).
  discriminate.
Defined.

(** X22.  [moveServoTo] turns down a target outside [0, 180]: nothing is
    sent.  For a target it accepts, every angle of an upward sweep is at most
    the target and at most 180, and every angle of a downward sweep is at
    least the target and at least 0. *)
Theorem moveServoTo_guards_sweeps (n : nat) (servo : Servo) (to : float) :
  exists more,
    angle_calls (moveServoTo n servo to) = angle_calls servo ++ more /\
    ((JS.lt to 0 || JS.gt to 180) = true ->
     more = [] /\ moveServoTo n servo to = servo) /\
    (JS.lt (status servo) to = true ->
     forall a, In a more -> JS.le a to = true /\ JS.le a 180 = true) /\
    (JS.lt (status servo) to = false ->
     forall a, In a more -> JS.ge a to = true /\ JS.ge a 0 = true).
Proof.
  unfold moveServoTo.
  destruct (JS.lt to 0 || JS.gt to 180) eqn:G.
  - exists []. rewrite app_nil_r.
    split; [reflexivity |]. split; [auto |].
    split; intros _ a [].
  - apply orb_false_elim in G; destruct G as [G0 G180].
    destruct (JS.lt (status servo) to).
    + destruct (sweepUp_calls n servo (status servo) to) as (more & Hc & Hm).
      exists more. split; [exact Hc |]. split; [discriminate |].
      split; [| discriminate].
      intros _ a Ha. pose proof (Hm a Ha) as Hle. split; [exact Hle |].
      unfold JS.le in *. eapply leb_trans; [exact Hle |].
      apply not_ltb_leb; [exact number_180 | | exact G180].
      exact (proj2 (leb_number _ _ Hle)).
    + destruct (JS.gt (status servo) to).
      * destruct (sweepDown_calls n servo (status servo) to)
          as (more & Hc & Hm).
        exists more. split; [exact Hc |]. split; [discriminate |].
        split; [discriminate |].
        intros _ a Ha. pose proof (Hm a Ha) as Hge.
        split; [exact Hge |].
        unfold JS.ge in *. eapply leb_trans; [| exact Hge].
        apply not_ltb_leb; [| exact number_0 | exact G0].
        exact (proj1 (leb_number _ _ Hge)).
      * exists []. rewrite app_nil_r.
        split; [reflexivity |]. split; [discriminate |].
        split; [discriminate |]. intros _ a [].
Qed.

(** C4.  The angles the actuator loop sends are not kept within [0, 180].
    A frame on [standing] puts 210 in the left buffer, and the left timer
    passes it to [servo.angle] as it is, neither clamped nor dropped; so does
    every tick whose median is beyond the deadband.  [moveServoTo], whose call
    the timer has commented out, turns the same target down. *)
Theorem median_sent_unclamped :
  run (host := RefHost.host) initialWorld
      [FrameEvent [standing] 0.15 0.1; LeftTick]
  = Some (mkWorld (mkBuffers [] [-30] [90])
                  (mkServo 150 [150]) (mkServo 30 [30; 210]) (mkServo 90 [90]))
  /\ JS.gt 210 180 = true
  /\ moveServoTo 200 (mkServo 30 [30]) 210 = mkServo 30 [30]
  /\ (forall servo angles,
        angles <> [] ->
        beyondDeadband servo (median angles) = true ->
        angle_calls (fst (updateServo servo angles))
        = angle_calls servo ++ [median angles]).
Proof.
  split; [vm_compute; reflexivity |].
  split; [vm_compute; reflexivity |].
  split; [vm_compute; reflexivity |].
  intros servo angles Hne Hb.
  rewrite (updateServo_nonempty servo angles Hne), Hb. reflexivity.
Qed.

(** C8.  When [existsArms] returns, [left] is true exactly when both
    shoulders and the left elbow are above the threshold, and [right] exactly
    when both shoulders and the right elbow are. *)
Theorem existsArms_exact (keypoints : list Keypoint) (c : float)
    (r : Sides bool) :
  existsArms keypoints c = Some r ->
  (left r = true <->
   above keypoints 5 c /\ above keypoints 6 c /\ above keypoints 7 c) /\
  (right r = true <->
   above keypoints 5 c /\ above keypoints 6 c /\ above keypoints 8 c).
Proof.
  unfold existsArms, above.
  destruct (scoreAbove keypoints 5 c) as [[|] |];
    destruct (scoreAbove keypoints 6 c) as [[|] |];
    destruct (scoreAbove keypoints 7 c) as [[|] |];
    destruct (scoreAbove keypoints 8 c) as [[|] |];
    cbn; intro H; try discriminate H; injection H as <-; cbn;
    repeat split; intros; repeat match goal with
      | H : _ /\ _ |- _ => destruct H
      end; try discriminate; try reflexivity.
Qed.

(** Left elbow above the threshold, right elbow below it. *)
Lemma existsArms_exact_coincident :
  existsArms (keypoints coincident) 0.1 = Some (mkSides true false) /\
  (true = true <->
   above (keypoints coincident) 5 0.1 /\ above (keypoints coincident) 6 0.1 /\
   above (keypoints coincident) 7 0.1) /\
  (false = true <->
   above (keypoints coincident) 5 0.1 /\ above (keypoints coincident) 6 0.1 /\
   above (keypoints coincident) 8 0.1).
Proof.
  split; [vm_compute; reflexivity |].
  apply (existsArms_exact (keypoints coincident) 0.1 (mkSides true false)).
  vm_compute; reflexivity.
Defined.

(** C5, as the code has it.  The face yaw is [180 - ratio * 180] where the
    ratio divides the norm of [(nose.x - leftEye.x, eyeVector.y)] by the norm
    of the eye vector: of the eye-to-nose displacement only the [x] component
    is read, but it is paired with the [y] component of the eye vector;
    [nose.y] plays no part. *)
Theorem getFaceYaw_formula (keypoints : list Keypoint)
    (nose leftEye rightEye : Vector2D) :
  positionOf keypoints 0 = Some nose ->
  positionOf keypoints 1 = Some leftEye ->
  positionOf keypoints 2 = Some rightEye ->
  getFaceYaw keypoints
  = Some (180
          - JS.Math_sqrt ((x nose - x leftEye) * (x nose - x leftEye)
                          + (y rightEye - y leftEye) * (y rightEye - y leftEye))
            / JS.Math_sqrt ((x rightEye - x leftEye) * (x rightEye - x leftEye)
                            + (y rightEye - y leftEye) * (y rightEye - y leftEye))
            * 180).
Proof.
  intros Hn Hl Hr. unfold getFaceYaw. rewrite Hn, Hl, Hr. reflexivity.
Qed.

(** The tilted head: 15 / 20 of 180 degrees off 180. *)
Lemma getFaceYaw_formula_tiltedHead :
  positionOf (keypoints tiltedHead) 0 = Some (mkVector 301 100) /\
  positionOf (keypoints tiltedHead) 1 = Some (mkVector 310 84) /\
  positionOf (keypoints tiltedHead) 2 = Some (mkVector 294 96) /\
  getFaceYaw (keypoints tiltedHead)
  = Some (180
          - JS.Math_sqrt ((301 - 310) * (301 - 310) + (96 - 84) * (96 - 84))
            / JS.Math_sqrt ((294 - 310) * (294 - 310) + (96 - 84) * (96 - 84))
            * 180).
Proof.
  split; [reflexivity |]. split; [reflexivity |]. split; [reflexivity |].
  apply (getFaceYaw_formula (keypoints tiltedHead) (mkVector 301 100)
           (mkVector 310 84) (mkVector 294 96)); reflexivity.
Defined.

(** C5 fails as stated: on the tilted head the gate passes and the code
    yields 45, where the ratio of [|eyeToNose.x|] to [|eyeVector|] gives 99. *)
Lemma faceYaw_differs_from_x_ratio :
  existsEyeAndNose (keypoints tiltedHead) 0.1 = Some true /\
  getFaceYaw (keypoints tiltedHead) = Some 45 /\
  faceYaw_xRatio (keypoints tiltedHead) = Some 99 /\
  poseDetectionFrame (host := RefHost.host) [tiltedHead] 0.15 0.1 emptyBuffers
  = Some (mkBuffers [] [] [45]).
Proof. repeat split; vm_compute; reflexivity. Qed.

Section Claims.

Context {host : Host}.

(** C2, as the code has it.  Nothing checks a sample before it is appended.
    When the eyes+nose gate passes on the selected pose and the eye vector has
    norm zero, the division by that norm is carried out and the face-yaw value
    appended is [NaN] or an infinity. *)
Theorem zero_eye_vector_sample_not_finite (poses : list Pose) (mp c : float)
    (b : Buffers) (p : Pose) (leftEye rightEye : Vector2D) :
  maxPose (confidentPoses poses mp) = Some p ->
  (11 <= List.length (keypoints p))%nat ->
  existsEyeAndNose (keypoints p) c = Some true ->
  positionOf (keypoints p) 1 = Some leftEye ->
  positionOf (keypoints p) 2 = Some rightEye ->
  (norm (mkVector (x rightEye - x leftEye) (y rightEye - y leftEye)) =? 0)
  = true ->
  exists b' v,
    poseDetectionFrame poses mp c b = Some b' /\
    getFaceYaw (keypoints p) = Some v /\
    faceYaws b' = faceYaws b ++ [v] /\
    is_finite v = false.
Proof.
  intros Hmax Hlen Hgate Hl Hr Hzero.
  destruct (samples_on_pose p c b Hlen)
    as (arms & face & angles & wristAngles & faceYaw
        & Ea & Ef & Eg & Ew & Ey & Hb).
  rewrite Hgate in Ef; injection Ef as <-.
  rewrite (frame_on_maxPose poses mp c b p Hmax), Hb.
  eexists; exists faceYaw. split; [reflexivity |]. split; [exact Ey |].
  split; [reflexivity |].
  destruct (positionOf_defined (keypoints p) 0) as [nose Hn]; [lia |].
  unfold getFaceYaw in Ey. rewrite Hn, Hl, Hr in Ey. cbn [bind] in Ey.
  injection Ey as <-.
  apply nonfinite_is_finite, sub_180_nonfinite, mul_180_nonfinite.
  apply div_zero_nonfinite. exact Hzero.
Qed.


(** C9.  When the arms gate reports a side on the selected pose, the value
    appended to that side's buffer is the wrist angle if the arm angle is
    strictly below it and the arm angle otherwise, plus 30 on the left, and
    180 minus it minus 30 on the right. *)
Theorem arm_sample_from_larger_angle (poses : list Pose) (mp c : float)
    (b : Buffers) (p : Pose) (arms : Sides bool) :
  maxPose (confidentPoses poses mp) = Some p ->
  (11 <= List.length (keypoints p))%nat ->
  existsArms (keypoints p) c = Some arms ->
  exists angles wristAngles b',
    getArmsAngle (keypoints p) = Some angles /\
    getWristAngle (keypoints p) = Some wristAngles /\
    poseDetectionFrame poses mp c b = Some b' /\
    (left arms = true ->
     left_angles b'
     = left_angles b
       ++ [(if JS.lt (left angles) (left wristAngles)
            then left wristAngles else left angles) + 30]) /\
    (right arms = true ->
     right_angles b'
     = right_angles b
       ++ [180 - (if JS.lt (right angles) (right wristAngles)
                  then right wristAngles else right angles) - 30]).
Proof.
  intros Hmax Hlen Harms.
  destruct (samples_on_pose p c b Hlen)
    as (arms' & face & angles & wristAngles & faceYaw
        & Ea & Ef & Eg & Ew & Ey & Hb).
  rewrite Harms in Ea; injection Ea as <-.
  exists angles, wristAngles. eexists.
  split; [exact Eg |]. split; [exact Ew |].
  split; [rewrite (frame_on_maxPose poses mp c b p Hmax); exact Hb |].
  cbn [left_angles right_angles].
  split; intros ->; reflexivity.
Qed.

(** C7, as the code has it.  The confident poses are those with a score of
    at least [minPoseConfidence].  The pose chosen among them has a bounding
    box area above 0, no earlier confident pose has an area at least as large
    and no later one a larger area, and the frame's samples are taken from
    it.  When no confident pose has an area above 0, in particular when there
    is no confident pose, none is chosen and the buffers stay as they are. *)
Theorem maxPose_largest_positive_area (poses : list Pose) (mp : float) :
  (forall p, In p (confidentPoses poses mp)
             <-> In p poses /\ JS.ge (pose_score p) mp = true) /\
  match maxPose (confidentPoses poses mp) with
  | Some p =>
      JS.gt (getBoundingBoxSize (keypoints p)) 0 = true /\
      (exists earlier later,
         confidentPoses poses mp = earlier ++ p :: later /\
         (forall q, In q earlier ->
            JS.ge (getBoundingBoxSize (keypoints q))
                  (getBoundingBoxSize (keypoints p)) = false) /\
         (forall q, In q later ->
            JS.gt (getBoundingBoxSize (keypoints q))
                  (getBoundingBoxSize (keypoints p)) = false)) /\
      (forall c b,
         poseDetectionFrame poses mp c b
         = (b1 <- leftArmSample p c b ;;
            b2 <- rightArmSample p c b1 ;;
            faceYawSample p c b2))
  | None =>
      (forall q, In q (confidentPoses poses mp) ->
         JS.gt (getBoundingBoxSize (keypoints q)) 0 = false) /\
      (forall c b, poseDetectionFrame poses mp c b = Some b)
  end.
Proof.
  split.
  - intro p. unfold confidentPoses. apply filter_In.
  - destruct (maxPose_selected (confidentPoses poses mp)) as [m Hsel].
    destruct (maxPose (confidentPoses poses mp)) as [p |] eqn:E;
      cbn [selected] in Hsel.
    + destruct Hsel as (_ & Hpos & Hsplit).
      split; [exact Hpos |]. split; [exact Hsplit |].
      intros c b. apply frame_on_maxPose. exact E.
    + destruct Hsel as (_ & Hnone).
      split; [exact Hnone |].
      intros c b. apply frame_without_maxPose. exact E.
Qed.

End Claims.

(** ** The claims on concrete frames, with the reference host *)

(** Both eyes at (300, 90): the eye vector is zero and the yaw is not
    finite. *)
Lemma zero_eye_vector_coincident :
  (norm (mkVector (300 - 300) (90 - 90)) =? 0) = true /\
  exists b' v,
    poseDetectionFrame (host := RefHost.host) [coincident] 0.15 0.1 emptyBuffers
    = Some b' /\
    getFaceYaw (keypoints coincident) = Some v /\
    faceYaws b' = faceYaws emptyBuffers ++ [v] /\
    is_finite v = false.
Proof.
  split; [vm_compute; reflexivity |].
  apply (zero_eye_vector_sample_not_finite (host := RefHost.host)
           [coincident] 0.15 0.1 emptyBuffers coincident
           (mkVector 300 90) (mkVector 300 90)).
  - vm_compute; reflexivity.
  - cbn; lia.
  - vm_compute; reflexivity.
  - reflexivity.
  - reflexivity.
  - vm_compute; reflexivity.
Defined.

(** C2 fails as stated.  On [coincident] the zero upper-arm vector and the
    zero eye vector are divided by: [NaN] enters [left_angles] and [-Infinity]
    enters [faceYaws].  On [slanted] the argument of [Math.acos] is
    [1.0000000000000002] and [NaN] enters both arm buffers. *)
Lemma nonfinite_samples_reach_buffers :
  poseDetectionFrame (host := RefHost.host) [coincident] 0.15 0.1 emptyBuffers
  = Some (mkBuffers [nan] [] [neg_infinity]) /\
  is_finite nan = false /\
  is_finite neg_infinity = false /\
  (let a := rotateVector (host := RefHost.host) (mkVector 100 2) 90 in
   let b := mkVector (-2) 100 in
   (x a * x b + y a * y b) / (norm a * norm b)) = 0x1.0000000000001p+0 /\
  JS.gt 0x1.0000000000001p+0 1 = true /\
  poseDetectionFrame (host := RefHost.host) [slanted] 0.15 0.1 emptyBuffers
  = Some (mkBuffers [nan] [nan] [90]).
Proof. repeat split; vm_compute; reflexivity. Qed.



(** On [standing] the wrist angles replace the arm angles on both sides. *)
Lemma arm_sample_standing :
  existsArms (keypoints standing) 0.1 = Some (mkSides true true) /\
  exists angles wristAngles b',
    getArmsAngle (host := RefHost.host) (keypoints standing) = Some angles /\
    getWristAngle (host := RefHost.host) (keypoints standing)
    = Some wristAngles /\
    poseDetectionFrame (host := RefHost.host) [standing] 0.15 0.1 emptyBuffers
    = Some b' /\
    (left (mkSides true true) = true ->
     left_angles b'
     = left_angles emptyBuffers
       ++ [(if JS.lt (left angles) (left wristAngles)
            then left wristAngles else left angles) + 30]) /\
    (right (mkSides true true) = true ->
     right_angles b'
     = right_angles emptyBuffers
       ++ [180 - (if JS.lt (right angles) (right wristAngles)
                  then right wristAngles else right angles) - 30]).
Proof.
  split; [vm_compute; reflexivity |].
  apply (arm_sample_from_larger_angle (host := RefHost.host)
           [standing] 0.15 0.1 emptyBuffers standing (mkSides true true)).
  - vm_compute; reflexivity.
  - cbn; lia.
  - vm_compute; reflexivity.
Defined.

(** Two confident people: the one with the larger bounding box is chosen,
    whichever comes first. *)
Lemma maxPose_two_people :
  getBoundingBoxSize (host := RefHost.host) (keypoints bystander) = 10304 /\
  getBoundingBoxSize (host := RefHost.host) (keypoints standing) = 40000 /\
  maxPose (host := RefHost.host) (confidentPoses [bystander; standing] 0.15)
  = Some standing /\
  maxPose (host := RefHost.host) (confidentPoses [standing; bystander] 0.15)
  = Some standing /\
  maxPose (host := RefHost.host) (confidentPoses [standing; standing] 0.15)
  = Some standing /\
  maxPose (host := RefHost.host) (confidentPoses [bystander; standing] 0.95)
  = None.
Proof. repeat split; vm_compute; reflexivity. Qed.

(** C7 fails as stated: [edgeOn] is the only pose, its score 0.9 is above
    the threshold and its face gate passes, but its bounding box has area 0:
    no pose is chosen and nothing is appended. *)
Lemma confident_pose_of_area_zero_not_chosen :
  confidentPoses [edgeOn] 0.15 = [edgeOn] /\
  getBoundingBoxSize (host := RefHost.host) (keypoints edgeOn) = 0 /\
  maxPose (host := RefHost.host) (confidentPoses [edgeOn] 0.15) = None /\
  existsEyeAndNose (keypoints edgeOn) 0.1 = Some true /\
  poseDetectionFrame (host := RefHost.host) [edgeOn] 0.15 0.1 emptyBuffers
  = Some emptyBuffers.
Proof. repeat split; vm_compute; reflexivity. Qed.

(** [moveServoTo] from 90: up to 93 one degree at a time, down towards 88.5,
    and nothing at all for 200 or -1. *)
Lemma moveServoTo_sweeps :
  moveServoTo 10 (mkServo 90 []) 93 = mkServo 93 [90; 91; 92; 93] /\
  moveServoTo 10 (mkServo 90 []) 88.5 = mkServo 89 [90; 89] /\
  moveServoTo 10 (mkServo 90 []) 200 = mkServo 90 [] /\
  moveServoTo 10 (mkServo 90 []) (-1) = mkServo 90 [].
Proof. repeat split; vm_compute; reflexivity. Qed.

(** ** Further properties of the code *)

(** *** More on binary64 numbers *)

Lemma leb_ltb_trans (a b c : float) :
  (a <=? b) = true -> (b <? c) = true -> (a <? c) = true.
Proof.
  rewrite !ltb_true_iff, leb_true_iff.
  intros (Ha & Hb & [H1 | H1]) (_ & Hc & H2); repeat split; auto.
  - eapply lex_lt_trans; eassumption.
  - rewrite H1; assumption.
Qed.

Lemma ltb_asym (a b : float) : (a <? b) = true -> (b <? a) = false.
Proof.
  intro H. apply not_true_is_false; intro H'.
  pose proof (ltb_leb_trans _ _ _ H (ltb_leb _ _ H')) as Hc.
  apply ltb_true_iff in Hc; destruct Hc as (_ & _ & Hc).
  exact (lex_lt_irrefl _ Hc).
Qed.

Lemma is_nan_spec (a : float) : is_nan a = true -> Prim2SF a = S754_nan.
Proof.
  unfold is_nan. rewrite FloatAxioms.eqb_spec. unfold SFeqb.
  destruct (Prim2SF a) as [sg | sg | | sg m e] eqn:E; try reflexivity;
    intro H; exfalso.
  - discriminate H.
  - destruct sg; discriminate H.
  - assert (Hn : is_number (S754_finite sg m e)) by discriminate.
    destruct (SFcompare_key _ _ Hn Hn) as (c & Ec & _ & Heq).
    rewrite Ec in H. rewrite (proj2 Heq eq_refl) in H. discriminate H.
Qed.

Lemma nan_is_nan (a : float) : Prim2SF a = S754_nan -> is_nan a = true.
Proof.
  intro H. unfold is_nan. rewrite FloatAxioms.eqb_spec, H. reflexivity.
Qed.

Lemma ltb_nan_l (a b : float) : is_nan a = true -> (a <? b) = false.
Proof.
  intro H. rewrite ltb_spec, (is_nan_spec a H). reflexivity.
Qed.

Lemma ltb_nan_r (a b : float) : is_nan b = true -> (a <? b) = false.
Proof.
  intro H. rewrite ltb_spec, (is_nan_spec b H).
  unfold SFltb. rewrite SFcompare_nan_r. reflexivity.
Qed.

Lemma sub_nan_l (a b : float) : is_nan a = true -> is_nan (a - b) = true.
Proof.
  intro H. apply nan_is_nan. rewrite sub_spec, (is_nan_spec a H). reflexivity.
Qed.

Lemma sub_nan_r (a b : float) : is_nan b = true -> is_nan (a - b) = true.
Proof.
  intro H. apply nan_is_nan. rewrite sub_spec, (is_nan_spec b H).
  destruct (Prim2SF a); reflexivity.
Qed.

Lemma abs_nan (a : float) : is_nan a = true -> is_nan (abs a) = true.
Proof.
  intro H. apply nan_is_nan. rewrite abs_spec, (is_nan_spec a H). reflexivity.
Qed.

Lemma mul_comm (a b : float) : a * b = b * a.
Proof.
  apply Prim2SF_inj. rewrite !mul_spec. unfold SF64mul, SFmul.
  destruct (Prim2SF a) as [sa | sa | | sa ma ea],
           (Prim2SF b) as [sb | sb | | sb mb eb];
    try reflexivity; rewrite (xorb_comm sa sb); try reflexivity.
  rewrite (Pos.mul_comm ma mb), (Z.add_comm ea eb). reflexivity.
Qed.

(** *** The gates *)

(** X1.  When [existWritst] returns, [left] is true exactly when the left
    wrist is above the threshold and [right] exactly when the right wrist
    is. *)
Theorem existWritst_exact (keypoints : list Keypoint) (c : float)
    (r : Sides bool) :
  existWritst keypoints c = Some r ->
  (left r = true <-> above keypoints 9 c) /\
  (right r = true <-> above keypoints 10 c).
Proof.
  unfold existWritst, above.
  destruct (scoreAbove keypoints 9 c) as [[|] |];
    destruct (scoreAbove keypoints 10 c) as [[|] |];
    cbn; intro H; try discriminate H; injection H as <-; cbn;
    repeat split; intros; try discriminate; try reflexivity.
Qed.

(** Only the right wrist of [coincident] moved below the threshold. *)
Lemma existWritst_exact_witness :
  existWritst (setScore 10 0.05 (keypoints coincident)) 0.1
  = Some (mkSides true false) /\
  (true = true <-> above (setScore 10 0.05 (keypoints coincident)) 9 0.1) /\
  (false = true <-> above (setScore 10 0.05 (keypoints coincident)) 10 0.1).
Proof.
  split; [vm_compute; reflexivity |].
  apply (existWritst_exact (setScore 10 0.05 (keypoints coincident)) 0.1
           (mkSides true false)).
  vm_compute; reflexivity.
Defined.

(** X2.  When [existsEyeAndNose] returns, it returns true exactly when the
    nose and both eyes are above the threshold. *)
Theorem existsEyeAndNose_exact (keypoints : list Keypoint) (c : float)
    (r : bool) :
  existsEyeAndNose keypoints c = Some r ->
  (r = true <->
   above keypoints 0 c /\ above keypoints 1 c /\ above keypoints 2 c).
Proof.
  unfold existsEyeAndNose, above.
  destruct (scoreAbove keypoints 0 c) as [[|] |];
    destruct (scoreAbove keypoints 1 c) as [[|] |];
    destruct (scoreAbove keypoints 2 c) as [[|] |];
    cbn; intro H; try discriminate H; injection H as <-;
    repeat split; intros; repeat match goal with
      | H : _ /\ _ |- _ => destruct H
      end; try discriminate; try reflexivity.
Qed.

(** The right eye of [standing] below the threshold. *)
Lemma existsEyeAndNose_exact_witness :
  existsEyeAndNose (setScore 2 0.05 (keypoints standing)) 0.1 = Some false /\
  (false = true <->
   above (setScore 2 0.05 (keypoints standing)) 0 0.1 /\
   above (setScore 2 0.05 (keypoints standing)) 1 0.1 /\
   above (setScore 2 0.05 (keypoints standing)) 2 0.1).
Proof.
  split; [vm_compute; reflexivity |].
  apply (existsEyeAndNose_exact (setScore 2 0.05 (keypoints standing)) 0.1
           false).
  vm_compute; reflexivity.
Defined.

(** X3.  When [existsNoseAndEyeAndEar] returns, a side is true exactly when
    the nose, both eyes and the ear of that side are above the threshold. *)
Theorem existsNoseAndEyeAndEar_exact (keypoints : list Keypoint) (c : float)
    (r : Sides bool) :
  existsNoseAndEyeAndEar keypoints c = Some r ->
  (left r = true <->
   above keypoints 0 c /\ above keypoints 1 c /\ above keypoints 2 c /\
   above keypoints 3 c) /\
  (right r = true <->
   above keypoints 0 c /\ above keypoints 1 c /\ above keypoints 2 c /\
   above keypoints 4 c).
Proof.
  unfold existsNoseAndEyeAndEar, above.
  destruct (scoreAbove keypoints 0 c) as [[|] |];
    destruct (scoreAbove keypoints 1 c) as [[|] |];
    destruct (scoreAbove keypoints 2 c) as [[|] |];
    destruct (scoreAbove keypoints 3 c) as [[|] |];
    destruct (scoreAbove keypoints 4 c) as [[|] |];
    cbn; intro H; try discriminate H; injection H as <-; cbn;
    repeat split; intros; repeat match goal with
      | H : _ /\ _ |- _ => destruct H
      end; try discriminate; try reflexivity.
Qed.

(** The left ear of [standing] below the threshold. *)
Lemma existsNoseAndEyeAndEar_exact_witness :
  existsNoseAndEyeAndEar (setScore 3 0.05 (keypoints standing)) 0.1
  = Some (mkSides false true) /\
  (false = true <->
   above (setScore 3 0.05 (keypoints standing)) 0 0.1 /\
   above (setScore 3 0.05 (keypoints standing)) 1 0.1 /\
   above (setScore 3 0.05 (keypoints standing)) 2 0.1 /\
   above (setScore 3 0.05 (keypoints standing)) 3 0.1) /\
  (true = true <->
   above (setScore 3 0.05 (keypoints standing)) 0 0.1 /\
   above (setScore 3 0.05 (keypoints standing)) 1 0.1 /\
   above (setScore 3 0.05 (keypoints standing)) 2 0.1 /\
   above (setScore 3 0.05 (keypoints standing)) 4 0.1).
Proof.
  split; [vm_compute; reflexivity |].
  apply (existsNoseAndEyeAndEar_exact
           (setScore 3 0.05 (keypoints standing)) 0.1 (mkSides false true)).
  vm_compute; reflexivity.
Defined.

(** A keypoint above a threshold is above every lower one. *)
Lemma scoreAbove_lower (keypoints : list Keypoint) (i : nat) (c c' : float) :
  (c <=? c') = true ->
  scoreAbove keypoints i c' = Some true -> scoreAbove keypoints i c = Some true.
Proof.
  intro Hc. unfold scoreAbove, JS.gt.
  destruct (nth_error keypoints i) as [k |]; cbn; [| discriminate].
  intro H; injection H as H. rewrite (leb_ltb_trans _ _ _ Hc H). reflexivity.
Qed.

Lemma scoreAbove_same_read (keypoints : list Keypoint) (i : nat)
    (c c' : float) :
  scoreAbove keypoints i c = None <-> scoreAbove keypoints i c' = None.
Proof.
  unfold scoreAbove.
  destruct (nth_error keypoints i); cbn; split; intro H;
    try discriminate H; reflexivity.
Qed.

Ltac lower_threshold kps c c' Hc idx :=
  match idx with
  | nil => idtac
  | cons ?i ?rest =>
      pose proof (scoreAbove_lower kps i c c' Hc);
      pose proof (proj1 (scoreAbove_same_read kps i c c'));
      destruct (scoreAbove kps i c') as [[|] |];
      destruct (scoreAbove kps i c) as [[|] |];
      try (exfalso; auto; discriminate);
      try match goal with
        | H : Some true = Some true -> Some false = Some true |- _ =>
            specialize (H eq_refl); discriminate H
        | H : None = None -> Some _ = None |- _ =>
            specialize (H eq_refl); discriminate H
        end;
      lower_threshold kps c c' Hc rest
  end.

(** X4.  The arms gate is monotone in the threshold: a side it reports at a
    threshold it reports at every lower threshold. *)
Theorem existsArms_monotone (keypoints : list Keypoint) (c c' : float)
    (r r' : Sides bool) :
  (c <=? c') = true ->
  existsArms keypoints c = Some r ->
  existsArms keypoints c' = Some r' ->
  (left r' = true -> left r = true) /\ (right r' = true -> right r = true).
Proof.
  intro Hc. unfold existsArms.
  lower_threshold keypoints c c' Hc [5; 6; 7; 8]%nat;
    cbn; intros Hr Hr'; try discriminate Hr; try discriminate Hr';
    injection Hr as <-; injection Hr' as <-; cbn; split; intro;
    try discriminate; reflexivity.
Qed.

(** Both elbows of [coincident] count at 0.01, only the left one at 0.1. *)
Lemma existsArms_monotone_witness :
  (0.01 <=? 0.1) = true /\
  existsArms (keypoints coincident) 0.01 = Some (mkSides true true) /\
  existsArms (keypoints coincident) 0.1 = Some (mkSides true false) /\
  (left (mkSides true false) = true -> left (mkSides true true) = true) /\
  (right (mkSides true false) = true -> right (mkSides true true) = true).
Proof.
  split; [vm_compute; reflexivity |].
  split; [vm_compute; reflexivity |].
  split; [vm_compute; reflexivity |].
  apply (existsArms_monotone (keypoints coincident) 0.01 0.1
           (mkSides true true) (mkSides true false));
    vm_compute; reflexivity.
Defined.

(** X5.  The eyes+nose gate is monotone in the threshold. *)
Theorem existsEyeAndNose_monotone (keypoints : list Keypoint) (c c' : float)
    (r r' : bool) :
  (c <=? c') = true ->
  existsEyeAndNose keypoints c = Some r ->
  existsEyeAndNose keypoints c' = Some r' ->
  r' = true -> r = true.
Proof.
  intro Hc. unfold existsEyeAndNose.
  lower_threshold keypoints c c' Hc [0; 1; 2]%nat;
    cbn; intros Hr Hr'; try discriminate Hr; try discriminate Hr';
    injection Hr as <-; injection Hr' as <-; intro;
    try discriminate; reflexivity.
Qed.

(** The face of [standing] passes at 0.5 and so at 0.1. *)
Lemma existsEyeAndNose_monotone_witness :
  (0.1 <=? 0.5) = true /\
  existsEyeAndNose (keypoints standing) 0.1 = Some true /\
  existsEyeAndNose (keypoints standing) 0.5 = Some true /\
  true = true.
Proof.
  split; [vm_compute; reflexivity |].
  split; [vm_compute; reflexivity |].
  split; [vm_compute; reflexivity |].
  apply (existsEyeAndNose_monotone (keypoints standing) 0.1 0.5 true true);
    vm_compute; reflexivity.
Defined.

(** *** The median *)

Lemma item_of_nat (a : list float) (n : nat) :
  JS.item a (Z.of_nat n) = nth_error a n.
Proof.
  unfold JS.item.
  destruct (Z.ltb_spec (Z.of_nat n) 0) as [H | H]; [lia |].
  rewrite Nat2Z.id. reflexivity.
Qed.

Lemma sorted_item_in (list : list float) (n : nat) :
  (n < List.length list)%nat ->
  exists a, nth_error (JS.sort list) n = Some a /\ In a list.
Proof.
  intro H.
  destruct (nth_error (JS.sort list) n) as [a |] eqn:E.
  - exists a. split; [reflexivity |].
    apply (Permutation_in a (sort_permutation list)).
    exact (nth_error_In _ _ E).
  - apply nth_error_None in E. rewrite sort_length in E. lia.
Qed.

(** X6.  On a buffer of odd length [median] returns one of the samples in
    the buffer. *)
Theorem median_odd_is_sample (list : list float) :
  (List.length list mod 2 = 1)%nat -> In (median list) list.
Proof.
  intro H. unfold median.
  rewrite sort_length, H. cbn [Nat.eqb].
  rewrite item_of_nat.
  assert (Hlt : (List.length list / 2 < List.length list)%nat).
  { apply Nat.div_lt; [| lia].
    destruct list; [discriminate H | cbn; lia]. }
  destruct (sorted_item_in list _ Hlt) as (a & Ea & Hin).
  rewrite Ea. exact Hin.
Qed.

Lemma median_odd_is_sample_witness :
  (List.length [90; 100; 110] mod 2 = 1)%nat /\
  In (median [90; 100; 110]) [90; 100; 110].
Proof.
  split; [reflexivity |].
  apply (median_odd_is_sample [90; 100; 110]). reflexivity.
Defined.

(** X7.  On a non-empty buffer of even length [median] returns the mean of
    two samples in the buffer. *)
Theorem median_even_is_mean (list : list float) :
  list <> [] ->
  (List.length list mod 2 = 0)%nat ->
  exists a b, In a list /\ In b list /\ median list = (a + b) / 2.
Proof.
  intros Hne H. unfold median.
  rewrite sort_length, H. cbn [Nat.eqb].
  assert (Hlen : (2 <= List.length list)%nat).
  { destruct list as [| u [| v rest]]; [contradiction | discriminate H |].
    cbn; lia. }
  assert (Hhalf : (1 <= List.length list / 2)%nat).
  { apply Nat.div_le_lower_bound; lia. }
  assert (Hlt : (List.length list / 2 < List.length list)%nat).
  { apply Nat.div_lt; lia. }
  replace (Z.of_nat (List.length list / 2) - 1)%Z
    with (Z.of_nat (List.length list / 2 - 1)) by lia.
  rewrite !item_of_nat.
  destruct (sorted_item_in list (List.length list / 2 - 1)) as (a & Ea & Ha);
    [lia |].
  destruct (sorted_item_in list _ Hlt) as (b & Eb & Hb).
  rewrite Ea, Eb. exists a, b. auto.
Qed.

Lemma median_even_is_mean_witness :
  [10; 20; 30; 40] <> [] /\
  (List.length [10; 20; 30; 40] mod 2 = 0)%nat /\
  exists a b,
    In a [10; 20; 30; 40] /\ In b [10; 20; 30; 40] /\
    median [10; 20; 30; 40] = (a + b) / 2.
Proof.
  split; [discriminate |]. split; [reflexivity |].
  apply (median_even_is_mean [10; 20; 30; 40]); [discriminate | reflexivity].
Defined.

(** *** The timer callback *)

Lemma beyondDeadband_nan (servo : Servo) (med : float) :
  is_nan med = true \/ is_nan (status servo) = true ->
  beyondDeadband servo med = false.
Proof.
  intro H. unfold beyondDeadband, JS.gt, JS.Math_abs.
  apply ltb_nan_r, abs_nan.
  destruct H as [H | H]; [apply sub_nan_r | apply sub_nan_l]; exact H.
Qed.

(** X8.  When the median of a non-empty buffer is [NaN], or the servo's
    [status] is, the tick sends nothing and still empties the buffer. *)
Theorem nan_median_drains_silently (servo : Servo) (angles : list float) :
  angles <> [] ->
  is_nan (median angles) = true \/ is_nan (status servo) = true ->
  updateServo servo angles = (servo, []).
Proof.
  intros Hne H. rewrite (updateServo_nonempty servo angles Hne).
  rewrite (beyondDeadband_nan servo (median angles) H). reflexivity.
Qed.

(** A buffer holding 40 and [NaN]: the mean of the two is [NaN]. *)
Lemma nan_median_drains_silently_witness :
  [40; nan] <> [] /\
  (is_nan (median [40; nan]) = true \/ is_nan (status (mkServo 90 [90]))
   = true) /\
  updateServo (mkServo 90 [90]) [40; nan] = (mkServo 90 [90], []).
Proof.
  split; [discriminate |].
  split; [left; vm_compute; reflexivity |].
  apply (nan_median_drains_silently (mkServo 90 [90]) [40; nan]).
  - discriminate.
  - left; vm_compute; reflexivity.
Defined.

(** *** [moveServoTo] *)

Lemma last_cons_default (i : float) (m : list float) (d : float) :
  last (i :: m) d = last m i.
Proof.
  revert i d; induction m as [| j m IH]; intros i d; [reflexivity |].
  change (last (i :: j :: m) d) with (last (j :: m) d).
  rewrite (IH j d), (IH j i). reflexivity.
Qed.

Lemma sweepUp_status (n : nat) :
  forall (servo : Servo) (i to : float),
  exists more,
    angle_calls (sweepUp n servo i to) = angle_calls servo ++ more /\
    status (sweepUp n servo i to) = last more (status servo).
Proof.
  induction n as [| n IH]; intros servo i to; cbn [sweepUp].
  - exists []. rewrite app_nil_r. split; reflexivity.
  - destruct (JS.le i to).
    + destruct (IH (set_status (servo_angle servo i) i) (i + 1) to)
        as (more & Hcalls & Hstatus).
      exists (i :: more). split.
      * rewrite Hcalls; cbn. rewrite <- app_assoc; reflexivity.
      * rewrite Hstatus, last_cons_default. reflexivity.
    + exists []. rewrite app_nil_r. split; reflexivity.
Qed.

Lemma sweepDown_status (n : nat) :
  forall (servo : Servo) (i to : float),
  exists more,
    angle_calls (sweepDown n servo i to) = angle_calls servo ++ more /\
    status (sweepDown n servo i to) = last more (status servo).
Proof.
  induction n as [| n IH]; intros servo i to; cbn [sweepDown].
  - exists []. rewrite app_nil_r. split; reflexivity.
  - destruct (JS.ge i to).
    + destruct (IH (set_status (servo_angle servo i) i) (i - 1) to)
        as (more & Hcalls & Hstatus).
      exists (i :: more). split.
      * rewrite Hcalls; cbn. rewrite <- app_assoc; reflexivity.
      * rewrite Hstatus, last_cons_default. reflexivity.
    + exists []. rewrite app_nil_r. split; reflexivity.
Qed.

(** X9.  [moveServoTo] keeps [status] in step with the motor: at every
    turn of its loop [status] is the last angle it has sent, and the
    [status] it started from when it has sent none. *)
Theorem moveServoTo_status_is_last_sent (n : nat) (servo : Servo)
    (to : float) :
  exists more,
    angle_calls (moveServoTo n servo to) = angle_calls servo ++ more /\
    status (moveServoTo n servo to) = last more (status servo).
Proof.
  unfold moveServoTo.
  destruct (JS.lt to 0 || JS.gt to 180).
  - exists []. rewrite app_nil_r. split; reflexivity.
  - destruct (JS.lt (status servo) to); [apply sweepUp_status |].
    destruct (JS.gt (status servo) to); [apply sweepDown_status |].
    exists []. rewrite app_nil_r. split; reflexivity.
Qed.

(** X10.  A target that is [NaN] passes the range test of [moveServoTo] but
    starts no sweep, and neither does a [status] that is [NaN]: nothing is
    sent and the servo is as before. *)
Theorem moveServoTo_nan_sends_nothing (n : nat) (servo : Servo) (to : float) :
  is_nan to = true \/ is_nan (status servo) = true ->
  moveServoTo n servo to = servo.
Proof.
  intro H. unfold moveServoTo, JS.lt, JS.gt.
  destruct ((to <? 0) || (180 <? to)); [reflexivity |].
  destruct H as [H | H].
  - rewrite (ltb_nan_r (status servo) to H), (ltb_nan_l to (status servo) H).
    reflexivity.
  - rewrite (ltb_nan_l (status servo) to H), (ltb_nan_r to (status servo) H).
    reflexivity.
Qed.

Lemma moveServoTo_nan_sends_nothing_witness :
  (is_nan nan = true \/ is_nan (status (mkServo 90 [90])) = true) /\
  ((nan <? 0) || (180 <? nan)) = false /\
  moveServoTo 50 (mkServo 90 [90]) nan = mkServo 90 [90].
Proof.
  split; [left; reflexivity |]. split; [reflexivity |].
  apply (moveServoTo_nan_sends_nothing 50 (mkServo 90 [90]) nan).
  left; reflexivity.
Defined.

(** *** The frame *)

Section FrameProperties.

Context {host : Host}.

Lemma leftArmSample_grows (p : Pose) (c : float) (b b1 : Buffers) :
  leftArmSample p c b = Some b1 ->
  exists ls,
    b1 = mkBuffers (left_angles b ++ ls) (right_angles b) (faceYaws b) /\
    (List.length ls <= 1)%nat.
Proof.
  unfold leftArmSample.
  destruct (existsArms (keypoints p) c) as [[[|] r] |]; cbn;
    [| | discriminate].
  - destruct (getArmsAngle (keypoints p)) as [angles |]; cbn;
      [| discriminate].
    destruct (getWristAngle (keypoints p)) as [wristAngles |]; cbn;
      [| discriminate].
    match goal with
    | |- context [if ?t then _ else _] => destruct t
    end; intro H; injection H as <-; eexists;
      (split; [reflexivity | cbn; lia]).
  - intro H; injection H as <-. exists [].
    destruct b; cbn; rewrite app_nil_r. split; [reflexivity | cbn; lia].
Qed.

Lemma rightArmSample_grows (p : Pose) (c : float) (b b1 : Buffers) :
  rightArmSample p c b = Some b1 ->
  exists rs,
    b1 = mkBuffers (left_angles b) (right_angles b ++ rs) (faceYaws b) /\
    (List.length rs <= 1)%nat.
Proof.
  unfold rightArmSample.
  destruct (existsArms (keypoints p) c) as [[l [|]] |]; cbn;
    [| | discriminate].
  - destruct (getArmsAngle (keypoints p)) as [angles |]; cbn;
      [| discriminate].
    destruct (getWristAngle (keypoints p)) as [wristAngles |]; cbn;
      [| discriminate].
    match goal with
    | |- context [if ?t then _ else _] => destruct t
    end; intro H; injection H as <-; eexists;
      (split; [reflexivity | cbn; lia]).
  - intro H; injection H as <-. exists [].
    destruct b; cbn; rewrite app_nil_r. split; [reflexivity | cbn; lia].
Qed.

Lemma faceYawSample_grows (p : Pose) (c : float) (b b1 : Buffers) :
  faceYawSample p c b = Some b1 ->
  exists ys,
    b1 = mkBuffers (left_angles b) (right_angles b) (faceYaws b ++ ys) /\
    (List.length ys <= 1)%nat.
Proof.
  unfold faceYawSample.
  destruct (existsEyeAndNose (keypoints p) c) as [[|] |]; cbn;
    [| | discriminate].
  - destruct (getFaceYaw (keypoints p)) as [faceYaw |]; cbn; [| discriminate].
    intro H; injection H as <-; eexists; (split; [reflexivity | cbn; lia]).
  - intro H; injection H as <-. exists [].
    destruct b; cbn; rewrite app_nil_r. split; [reflexivity | cbn; lia].
Qed.

(** X11.  A frame that returns never removes or reorders a buffered sample:
    each of the three buffers is the one before with at most one sample
    added at its end. *)
Theorem frame_appends_at_most_one (poses : list Pose) (mp c : float)
    (b b' : Buffers) :
  poseDetectionFrame poses mp c b = Some b' ->
  exists ls rs ys,
    b' = mkBuffers (left_angles b ++ ls) (right_angles b ++ rs)
                   (faceYaws b ++ ys) /\
    (List.length ls <= 1)%nat /\
    (List.length rs <= 1)%nat /\
    (List.length ys <= 1)%nat.
Proof.
  unfold poseDetectionFrame.
  destruct (maxPose (confidentPoses poses mp)) as [p |].
  - destruct (leftArmSample p c b) as [b1 |] eqn:E1; cbn; [| discriminate].
    destruct (rightArmSample p c b1) as [b2 |] eqn:E2; cbn; [| discriminate].
    intro E3.
    destruct (leftArmSample_grows p c b b1 E1) as (ls & -> & Hl).
    destruct (rightArmSample_grows p c _ b2 E2) as (rs & -> & Hr).
    destruct (faceYawSample_grows p c _ b' E3) as (ys & -> & Hy).
    exists ls, rs, ys. cbn. auto.
  - intro H; injection H as <-. exists [], [], [].
    destruct b; cbn; rewrite !app_nil_r. repeat split; cbn; lia.
Qed.

(** X12.  Poses below the pose threshold have no influence on a frame: the
    frame on all the poses is the frame on the confident ones alone. *)
Theorem frame_ignores_unconfident_poses (poses : list Pose) (mp c : float)
    (b : Buffers) :
  poseDetectionFrame poses mp c b
  = poseDetectionFrame (confidentPoses poses mp) mp c b.
Proof.
  unfold poseDetectionFrame.
  assert (H : confidentPoses (confidentPoses poses mp) mp
              = confidentPoses poses mp).
  { unfold confidentPoses. induction poses as [| p poses IH];
      [reflexivity |].
    cbn [filter].
    destruct (JS.ge (pose_score p) mp) eqn:E; [| exact IH].
    cbn [filter]. rewrite E, IH. reflexivity. }
  rewrite H. reflexivity.
Qed.

(** X13.  When the pose chosen has fewer than six keypoints, the read of
    [keypoints[5].score] in [existsArms] throws and the frame ends without a
    result. *)
Theorem frame_throws_on_short_pose (poses : list Pose) (mp c : float)
    (b : Buffers) (p : Pose) :
  maxPose (confidentPoses poses mp) = Some p ->
  (List.length (keypoints p) <= 5)%nat ->
  poseDetectionFrame poses mp c b = None.
Proof.
  intros Hmax Hlen. unfold poseDetectionFrame. rewrite Hmax.
  unfold leftArmSample, existsArms, scoreAbove.
  rewrite (proj2 (nth_error_None (keypoints p) 5) Hlen). reflexivity.
Qed.

End FrameProperties.

(** A frame on [standing] with one sample already in each buffer. *)
Lemma frame_appends_at_most_one_witness :
  poseDetectionFrame (host := RefHost.host) [standing] 0.15 0.1
    (mkBuffers [40] [50] [60])
  = Some (mkBuffers [40; 210] [50; -30] [60; 90]) /\
  exists ls rs ys,
    mkBuffers [40; 210] [50; -30] [60; 90]
    = mkBuffers (left_angles (mkBuffers [40] [50] [60]) ++ ls)
                (right_angles (mkBuffers [40] [50] [60]) ++ rs)
                (faceYaws (mkBuffers [40] [50] [60]) ++ ys) /\
    (List.length ls <= 1)%nat /\
    (List.length rs <= 1)%nat /\
    (List.length ys <= 1)%nat.
Proof.
  split; [vm_compute; reflexivity |].
  apply (frame_appends_at_most_one (host := RefHost.host) [standing] 0.15 0.1
           (mkBuffers [40] [50] [60])).
  vm_compute; reflexivity.
Defined.

(** A confident pose without keypoints has a box of infinite area and is
    chosen. *)
Lemma frame_throws_on_short_pose_witness :
  maxPose (host := RefHost.host) (confidentPoses [noKeypoints] 0.15)
  = Some noKeypoints /\
  (List.length (keypoints noKeypoints) <= 5)%nat /\
  poseDetectionFrame (host := RefHost.host) [noKeypoints] 0.15 0.1 emptyBuffers
  = None.
Proof.
  split; [vm_compute; reflexivity |]. split; [cbn; lia |].
  apply (frame_throws_on_short_pose (host := RefHost.host) [noKeypoints]
           0.15 0.1 emptyBuffers noKeypoints).
  - vm_compute; reflexivity.
  - cbn; lia.
Defined.

(** *** The session *)

Lemma updateServo_asStarted (s0 : float) (servo : Servo)
    (angles : list float) :
  asStarted s0 servo -> asStarted s0 (fst (updateServo servo angles)).
Proof.
  intros (Hs & later & Hc & Hall).
  destruct angles as [| a rest]; [cbn; unfold asStarted; eauto |].
  rewrite updateServo_nonempty by discriminate. cbn [fst].
  destruct (beyondDeadband servo (median (a :: rest))) eqn:E.
  - split; [exact Hs |].
    exists (later ++ [median (a :: rest)]). split.
    + cbn. rewrite Hc. reflexivity.
    + apply Forall_app. split; [exact Hall |].
      constructor; [| constructor].
      unfold beyond. rewrite <- Hs. exact E.
  - unfold asStarted; eauto.
Qed.

Lemma updateServo_sends_at_most_one (servo : Servo) (angles : list float) :
  (List.length (angle_calls (fst (updateServo servo angles)))
   <= List.length (angle_calls servo) + 1)%nat.
Proof.
  destruct angles as [| a rest]; [cbn; lia |].
  rewrite updateServo_nonempty by discriminate. cbn [fst].
  destruct (beyondDeadband servo (median (a :: rest))); cbn;
    rewrite ?length_app; cbn; lia.
Qed.

Section SessionProperties.

Context {host : Host}.

Lemma step_asStarted (w w' : World) (e : Event) :
  step w e = Some w' -> sessionAsStarted w -> sessionAsStarted w'.
Proof.
  unfold sessionAsStarted. intros Hstep (Hr & Hl & Hf).
  destruct e as [poses mp c | | |]; cbn [step] in Hstep.
  - destruct (poseDetectionFrame poses mp c (buffers w)) as [b' |];
      cbn in Hstep; [| discriminate].
    injection Hstep as <-. cbn. auto.
  - pose proof (updateServo_asStarted 150 (rightServo w)
                  (right_angles (buffers w)) Hr) as H.
    destruct (updateServo (rightServo w) (right_angles (buffers w))).
    injection Hstep as <-. cbn in *. auto.
  - pose proof (updateServo_asStarted 30 (leftServo w)
                  (left_angles (buffers w)) Hl) as H.
    destruct (updateServo (leftServo w) (left_angles (buffers w))).
    injection Hstep as <-. cbn in *. auto.
  - pose proof (updateServo_asStarted 90 (faceYawServo w)
                  (faceYaws (buffers w)) Hf) as H.
    destruct (updateServo (faceYawServo w) (faceYaws (buffers w))).
    injection Hstep as <-. cbn in *. auto.
Qed.

Lemma run_asStarted (es : list Event) :
  forall w w', run w es = Some w' -> sessionAsStarted w -> sessionAsStarted w'.
Proof.
  induction es as [| e es IH]; intros w w' Hrun Hw; cbn [run] in Hrun.
  - injection Hrun as <-. exact Hw.
  - destruct (step w e) as [w1 |] eqn:E; cbn in Hrun; [| discriminate].
    exact (IH w1 w' Hrun (step_asStarted w w1 e E Hw)).
Qed.

Lemma initialWorld_asStarted : sessionAsStarted initialWorld.
Proof.
  unfold sessionAsStarted, asStarted; cbn.
  repeat split; exists []; split; (reflexivity || constructor).
Qed.

(** X14.  Through a whole session, whatever frames and ticks occur, the
    [status] of each servo stays the angle [bindPage] gave it: 150 for the
    right servo, 30 for the left one, 90 for the head. *)
Theorem session_status_never_changes (es : list Event) (w : World) :
  run initialWorld es = Some w ->
  status (rightServo w) = 150 /\
  status (leftServo w) = 30 /\
  status (faceYawServo w) = 90.
Proof.
  intro Hrun.
  destruct (run_asStarted es initialWorld w Hrun initialWorld_asStarted)
    as ((Hr & _) & (Hl & _) & (Hf & _)).
  auto.
Qed.

(** X15.  Through a whole session every angle sent to a servo after the
    first is more than 5 away from the angle the servo was started at: no
    servo is ever driven to within the deadband of 150, 30 or 90
    respectively. *)
Theorem session_commands_beyond_initial_deadband (es : list Event)
    (w : World) :
  run initialWorld es = Some w ->
  (forall a, In a (tl (angle_calls (rightServo w))) -> beyond 150 a = true) /\
  (forall a, In a (tl (angle_calls (leftServo w))) -> beyond 30 a = true) /\
  (forall a, In a (tl (angle_calls (faceYawServo w))) -> beyond 90 a = true).
Proof.
  intro Hrun.
  destruct (run_asStarted es initialWorld w Hrun initialWorld_asStarted)
    as ((_ & lr & Er & Hr) & (_ & ll & El & Hl) & (_ & lf & Ef & Hf)).
  rewrite Er, El, Ef. cbn [tl].
  repeat split; intros a Ha;
    match goal with
    | H : Forall _ ?l, Hin : In _ ?l |- _ =>
        exact (proj1 (Forall_forall _ l) H a Hin)
    end.
Qed.

Lemma step_sends_at_most_one (w w' : World) (e : Event) :
  step w e = Some w' ->
  (List.length (angle_calls (rightServo w'))
   <= List.length (angle_calls (rightServo w))
      + if isRightTick e then 1 else 0)%nat /\
  (List.length (angle_calls (leftServo w'))
   <= List.length (angle_calls (leftServo w))
      + if isLeftTick e then 1 else 0)%nat /\
  (List.length (angle_calls (faceYawServo w'))
   <= List.length (angle_calls (faceYawServo w))
      + if isFaceYawTick e then 1 else 0)%nat.
Proof.
  intro Hstep.
  destruct e as [poses mp c | | |]; cbn [step] in Hstep.
  - destruct (poseDetectionFrame poses mp c (buffers w)) as [b' |];
      cbn in Hstep; [| discriminate].
    injection Hstep as <-. cbn. lia.
  - pose proof (updateServo_sends_at_most_one (rightServo w)
                  (right_angles (buffers w))) as H.
    destruct (updateServo (rightServo w) (right_angles (buffers w))).
    injection Hstep as <-. cbn in *. lia.
  - pose proof (updateServo_sends_at_most_one (leftServo w)
                  (left_angles (buffers w))) as H.
    destruct (updateServo (leftServo w) (left_angles (buffers w))).
    injection Hstep as <-. cbn in *. lia.
  - pose proof (updateServo_sends_at_most_one (faceYawServo w)
                  (faceYaws (buffers w))) as H.
    destruct (updateServo (faceYawServo w) (faceYaws (buffers w))).
    injection Hstep as <-. cbn in *. lia.
Qed.

(** X16.  A servo is sent at most one angle per tick of its own timer, and
    none by a frame or by another servo's timer: over any run the number of
    angles sent to it grows by at most the number of its ticks. *)
Theorem run_sends_at_most_one_per_tick (es : list Event) :
  forall w w' : World,
    run w es = Some w' ->
    (List.length (angle_calls (rightServo w'))
     <= List.length (angle_calls (rightServo w))
        + List.length (filter isRightTick es))%nat /\
    (List.length (angle_calls (leftServo w'))
     <= List.length (angle_calls (leftServo w))
        + List.length (filter isLeftTick es))%nat /\
    (List.length (angle_calls (faceYawServo w'))
     <= List.length (angle_calls (faceYawServo w))
        + List.length (filter isFaceYawTick es))%nat.
Proof.
  induction es as [| e es IH]; intros w w' Hrun; cbn [run] in Hrun.
  - injection Hrun as <-. cbn. lia.
  - destruct (step w e) as [w1 |] eqn:E; cbn in Hrun; [| discriminate].
    destruct (step_sends_at_most_one w w1 e E) as (Hr & Hl & Hf).
    destruct (IH w1 w' Hrun) as (Hr' & Hl' & Hf').
    cbn [filter].
    destruct (isRightTick e), (isLeftTick e), (isFaceYawTick e);
      cbn [List.length]; lia.
Qed.

End SessionProperties.

Lemma session_status_never_changes_witness :
  run (host := RefHost.host) initialWorld sessionEvents = Some sessionEnd /\
  status (rightServo sessionEnd) = 150 /\
  status (leftServo sessionEnd) = 30 /\
  status (faceYawServo sessionEnd) = 90.
Proof.
  split; [vm_compute; reflexivity |].
  apply (session_status_never_changes (host := RefHost.host) sessionEvents
           sessionEnd).
  vm_compute; reflexivity.
Defined.

Lemma session_commands_beyond_initial_deadband_witness :
  run (host := RefHost.host) initialWorld sessionEvents = Some sessionEnd /\
  (forall a, In a (tl (angle_calls (rightServo sessionEnd))) ->
     beyond 150 a = true) /\
  (forall a, In a (tl (angle_calls (leftServo sessionEnd))) ->
     beyond 30 a = true) /\
  (forall a, In a (tl (angle_calls (faceYawServo sessionEnd))) ->
     beyond 90 a = true).
Proof.
  split; [vm_compute; reflexivity |].
  apply (session_commands_beyond_initial_deadband (host := RefHost.host)
           sessionEvents sessionEnd).
  vm_compute; reflexivity.
Defined.

Lemma run_sends_at_most_one_per_tick_witness :
  run (host := RefHost.host) initialWorld sessionEvents = Some sessionEnd /\
  (List.length (angle_calls (rightServo sessionEnd))
   <= List.length (angle_calls (rightServo initialWorld))
      + List.length (filter isRightTick sessionEvents))%nat /\
  (List.length (angle_calls (leftServo sessionEnd))
   <= List.length (angle_calls (leftServo initialWorld))
      + List.length (filter isLeftTick sessionEvents))%nat /\
  (List.length (angle_calls (faceYawServo sessionEnd))
   <= List.length (angle_calls (faceYawServo initialWorld))
      + List.length (filter isFaceYawTick sessionEvents))%nat.
Proof.
  split; [vm_compute; reflexivity |].
  apply (run_sends_at_most_one_per_tick (host := RefHost.host) sessionEvents
           initialWorld sessionEnd).
  vm_compute; reflexivity.
Defined.

(** *** [calculateAngle] *)

Lemma mul_nan_l (a b : float) : is_nan a = true -> is_nan (a * b) = true.
Proof.
  intro H. apply nan_is_nan. rewrite mul_spec, (is_nan_spec a H). reflexivity.
Qed.

Lemma div_nan_l (a b : float) : is_nan a = true -> is_nan (a / b) = true.
Proof.
  intro H. apply nan_is_nan. rewrite div_spec, (is_nan_spec a H). reflexivity.
Qed.

(** A product with a zero is a zero or [NaN]; dividing by either never gives
    a finite value. *)
Lemma div_by_zero_product (d u v : float) :
  (u =? 0) = true \/ (v =? 0) = true -> nonfinite (d / (u * v)).
Proof.
  intro H. unfold nonfinite. rewrite div_spec, mul_spec.
  assert (Hz : (exists sg, SF64mul (Prim2SF u) (Prim2SF v) = S754_zero sg)
               \/ SF64mul (Prim2SF u) (Prim2SF v) = S754_nan).
  { destruct H as [H | H]; destruct (eqb_zero _ H) as [sg Hsg]; rewrite Hsg.
    - destruct (Prim2SF v); cbn; eauto.
    - destruct (Prim2SF u); cbn; eauto. }
  destruct Hz as [[sg Hz] | Hz]; rewrite Hz;
    destruct (Prim2SF d); cbn; eauto.
Qed.

Section AngleProperties.

Context {host : Host}.

(** X17.  The angle between two vectors does not depend on their order. *)
Theorem calculateAngle_symmetric (vectorA vectorB : Vector2D) :
  calculateAngle vectorA vectorB = calculateAngle vectorB vectorA.
Proof.
  unfold calculateAngle.
  rewrite (mul_comm (x vectorA) (x vectorB)),
          (mul_comm (y vectorA) (y vectorB)),
          (mul_comm (norm vectorA) (norm vectorB)).
  reflexivity.
Qed.

(** X18.  On a host whose [Math.acos] returns [NaN] for every argument that
    is not finite, as ECMAScript requires, [calculateAngle] returns [NaN]
    whenever one of the two vectors has norm zero. *)
Theorem calculateAngle_zero_norm (vectorA vectorB : Vector2D) :
  (forall v, is_finite v = false -> is_nan (Math_acos v) = true) ->
  (norm vectorA =? 0) = true \/ (norm vectorB =? 0) = true ->
  is_nan (calculateAngle vectorA vectorB) = true.
Proof.
  intros Hacos Hzero. unfold calculateAngle.
  apply div_nan_l, mul_nan_l, Hacos, nonfinite_is_finite.
  apply div_by_zero_product. exact Hzero.
Qed.

End AngleProperties.

Lemma RefHost_acos_not_finite (v : float) :
  is_finite v = false -> is_nan (RefHost.acos v) = true.
Proof.
  unfold is_finite. intro H. apply negb_false_iff in H.
  unfold RefHost.acos.
  destruct (is_nan v) eqn:En; [reflexivity |].
  cbn [orb] in H |- *.
  assert (Hinf : exists sg, Prim2SF v = S754_infinity sg).
  { unfold is_infinity in H.
    rewrite FloatAxioms.eqb_spec, abs_spec in H.
    change (Prim2SF infinity) with (S754_infinity false) in H.
    destruct (Prim2SF v) as [sg | sg | | sg m e]; cbn in H;
      try discriminate H; eauto. }
  destruct Hinf as [sg Hinf].
  assert (Hout : (1 <? v) || (v <? -1) = true).
  { rewrite !ltb_spec, Hinf. destruct sg; reflexivity. }
  rewrite Hout. reflexivity.
Qed.

(** An upper arm of length zero against the shoulder line (3, 4). *)
Lemma calculateAngle_zero_norm_witness :
  ((norm (mkVector 3 4) =? 0) = true \/ (norm (mkVector 0 0) =? 0) = true) /\
  is_nan (calculateAngle (host := RefHost.host) (mkVector 3 4) (mkVector 0 0))
  = true.
Proof.
  split; [right; vm_compute; reflexivity |].
  apply (calculateAngle_zero_norm (host := RefHost.host)
           (mkVector 3 4) (mkVector 0 0)).
  - exact RefHost_acos_not_finite.
  - right; vm_compute; reflexivity.
Defined.

(** *** [drawKeypoints] *)

Lemma drawKeypoints_keeps (keypoints : list Keypoint) (c scale : float)
    (op : CanvasCall) :
  forall ctx, In op ctx -> In op (drawKeypoints keypoints c ctx scale).
Proof.
  induction keypoints as [| k rest IH]; intros ctx H; cbn [drawKeypoints];
    [exact H |].
  destruct (JS.lt (score k) c); apply IH; [exact H |].
  unfold drawPoint. apply in_or_app. left; exact H.
Qed.

(** X19.  Every keypoint that a gate counts as above the threshold is drawn
    by [drawKeypoints] at the same threshold: its arc, at the scaled position
    with radius 3, is among the calls made on the context. *)
Theorem drawKeypoints_draws_above (keypoints : list Keypoint) (c scale : float)
    (ctx : list CanvasCall) (i : nat) (k : Keypoint) :
  nth_error keypoints i = Some k ->
  above keypoints i c ->
  In (keypointArc k scale) (drawKeypoints keypoints c ctx scale).
Proof.
  unfold above, scoreAbove. intros Hk Ha. rewrite Hk in Ha. cbn in Ha.
  injection Ha as Ha.
  revert i ctx Hk.
  induction keypoints as [| k0 rest IH]; intros i ctx Hk;
    [destruct i; discriminate Hk |].
  cbn [drawKeypoints]. destruct i as [| i].
  - cbn in Hk. injection Hk as ->.
    unfold JS.lt. rewrite (ltb_asym _ _ Ha).
    apply drawKeypoints_keeps. unfold drawPoint, keypointArc.
    apply in_or_app. right. right. left. reflexivity.
  - cbn in Hk. destruct (JS.lt (score k0) c); exact (IH i _ Hk).
Qed.

Lemma drawKeypoints_draws_above_witness :
  nth_error (keypoints standing) 0 = Some (keypoint 0.9 300 100) /\
  above (keypoints standing) 0 0.1 /\
  In (keypointArc (keypoint 0.9 300 100) 1)
     (drawKeypoints (keypoints standing) 0.1 [] 1).
Proof.
  split; [reflexivity |]. split; [vm_compute; reflexivity |].
  apply (drawKeypoints_draws_above (keypoints standing) 0.1 1 [] 0
           (keypoint 0.9 300 100)).
  - reflexivity.
  - vm_compute; reflexivity.
Defined.

(** X20.  [drawKeypoints] adds to the context only the four calls of
    [drawPoint] for keypoints whose score is not below the threshold; a
    keypoint below it is never drawn. *)
Theorem drawKeypoints_only_not_below (keypoints : list Keypoint)
    (c scale : float) (op : CanvasCall) :
  forall ctx,
    In op (drawKeypoints keypoints c ctx scale) ->
    In op ctx \/
    exists k,
      In k keypoints /\ JS.lt (score k) c = false /\
      In op [BeginPath; keypointArc k scale; FillStyle color; Fill].
Proof.
  induction keypoints as [| k rest IH]; intros ctx H; cbn [drawKeypoints] in H;
    [left; exact H |].
  destruct (JS.lt (score k) c) eqn:E.
  - destruct (IH ctx H) as [Hc | (k' & Hin & Hs & Hop)]; [left; exact Hc |].
    right. exists k'. split; [right; exact Hin | auto].
  - destruct (IH _ H) as [Hc | (k' & Hin & Hs & Hop)].
    + unfold drawPoint in Hc. apply in_app_or in Hc.
      destruct Hc as [Hc | Hc]; [left; exact Hc |].
      right. exists k. split; [left; reflexivity |]. split; [exact E |].
      exact Hc.
    + right. exists k'. split; [right; exact Hin | auto].
Qed.

Lemma drawKeypoints_only_not_below_witness :
  In (keypointArc (keypoint 0.9 300 100) 1)
     (drawKeypoints (keypoints standing) 0.1 [] 1) /\
  (In (keypointArc (keypoint 0.9 300 100) 1) [] \/
   exists k,
     In k (keypoints standing) /\ JS.lt (score k) 0.1 = false /\
     In (keypointArc (keypoint 0.9 300 100) 1)
        [BeginPath; keypointArc k 1; FillStyle color; Fill]).
Proof.
  assert (H : In (keypointArc (keypoint 0.9 300 100) 1)
                 (drawKeypoints (keypoints standing) 0.1 [] 1)).
  { vm_compute. right. left. reflexivity. }
  split; [exact H |].
  exact (drawKeypoints_only_not_below (keypoints standing) 0.1 1
           (keypointArc (keypoint 0.9 300 100) 1) [] H).
Defined.
